(** * URDFViewer: the viewer controller of [src/utils/urdf-viewer-element.js]

    A shallow embedding of the custom element [URDFViewer]: its package-spec
    parsing, its scene-graph walks (materials, joint limits, collision
    geometry, framing), its load orchestration with request ids, and its
    render loop.

    Conventions of the embedding.
    - JavaScript numbers are IEEE-754 binary64 values: [float].
    - JavaScript strings are [string]; a character stands for a code unit
      below 256.
    - A scene-graph object is a node of a rose tree; a reference to a node
      inside a model is the path of child indices that leads to it.
    - The objects the importer produces live in a heap keyed by the id of
      the request that asked for them, so that [this.robot], the children of
      [this.world] and the variable [robot] captured by the closures of
      [_loadUrdf] can alias one object.
    - Three.js ([Box3], [Vector3], [Object3D.traverse]) and the importer
      ([URDFLoader], the joint class) are collaborators outside the
      repository file; what the viewer needs of them is stated where it is
      used. *)

From Stdlib Require Import Floats ZArith Uint63 Ascii String.
From stdpp Require Import gmap strings list.

Set Warnings "-inexact-float,-register-all".
Set Default Proof Using "Type".

Local Open Scope string_scope.

(** ** JavaScript strings *)

Module JsString.

(** [s.includes(c)] for a one-character needle. *)
Fixpoint includes (c : ascii) (s : string) : bool :=
  match s with
  | EmptyString => false
  | String a s' => if Ascii.eqb a c then true else includes c s'
  end.

(** [s.split(c)] for a one-character separator: never the empty list,
    [''.split(c)] is [['']]. *)
Fixpoint split (c : ascii) (s : string) : list string :=
  match s with
  | EmptyString => [EmptyString]
  | String a s' =>
      if Ascii.eqb a c then EmptyString :: split c s'
      else match split c s' with
           | p :: ps => String a p :: ps
           | [] => [String a EmptyString]
           end
  end.

(** [l.join(sep)]. *)
Definition join (sep : string) (l : list string) : string :=
  String.concat sep l.

(** [s.substring(0, n)]. *)
Definition substring0 (n : nat) (s : string) : string :=
  String.substring 0 n s.

(** White space and line terminators among the code units below 256:
    TAB, LF, VT, FF, CR, SPACE and NBSP. *)
Definition is_space (a : ascii) : bool :=
  let n := nat_of_ascii a in
  ((9 <=? n)%nat && (n <=? 13)%nat) || (n =? 32)%nat || (n =? 160)%nat.

Fixpoint trimStart (s : string) : string :=
  match s with
  | EmptyString => EmptyString
  | String a s' => if is_space a then trimStart s' else s
  end.

Fixpoint trimEnd (s : string) : string :=
  match s with
  | EmptyString => EmptyString
  | String a s' =>
      match trimEnd s' with
      | EmptyString => if is_space a then EmptyString else String a EmptyString
      | r => String a r
      end
  end.

(** [s.trim()]. *)
Definition trim (s : string) : string := trimEnd (trimStart s).

(** [!!s]: a string is truthy when it is not empty. *)
Definition truthy (s : string) : bool :=
  match s with EmptyString => false | _ => true end.

(** The part of [s] before its first [c] and the part after it; without
    a [c] the whole string and the empty string. *)
Fixpoint cut (c : ascii) (s : string) : string * string :=
  match s with
  | EmptyString => (EmptyString, EmptyString)
  | String a s' =>
      if Ascii.eqb a c then (EmptyString, s')
      else (String a (cut c s').1, (cut c s').2)
  end.

End JsString.

(** ** Package specifications ([_loadUrdf], "Handle package parsing") *)

(** [loader.packages]: the attribute string itself, or the object built by
    the [reduce]. *)
Inductive Packages :=
| PkgPath (path : string)
| PkgMap (map : gmap string string).

(** [map[k] = v] on an object created by [{}], for a string [v]: an own
    property is written, except for the key [__proto__], whose inherited
    setter ignores a value that is neither an object nor [null]. *)
Definition obj_set (k v : string) (map : gmap string string) : gmap string string :=
  if String.eqb k "__proto__" then map else <[k := v]> map.

(** The callback of [pkg.split(',').reduce(...)]. [None] stands for the
    [TypeError] of [split.shift().trim()] when no piece is left. *)
Definition package_entry (map : gmap string string) (value : string)
  : option (gmap string string) :=
  let split := List.filter JsString.truthy (JsString.split ":" value) in
  match split with
  | [] => None
  | first :: rest =>
      let pkgName := JsString.trim first in
      let pkgPath := JsString.trim (JsString.join ":" rest) in
      Some (obj_set pkgName pkgPath map)
  end.

Fixpoint reduce_entries (map : gmap string string) (values : list string)
  : option (gmap string string) :=
  match values with
  | [] => Some map
  | value :: values' =>
      match package_entry map value with
      | Some map' => reduce_entries map' values'
      | None => None
      end
  end.

(** The test of the [if]: [pkg.includes(':')] and
    [pkg.split(':')[1].substring(0, 2) !== '//']. *)
Definition is_package_map (pkg : string) : bool :=
  JsString.includes ":" pkg
  && negb (String.eqb
             (JsString.substring0 2 (nth 1 (JsString.split ":" pkg) EmptyString))
             "//").

Definition parsePackages (pkg : string) : option Packages :=
  if is_package_map pkg
  then PkgMap <$> reduce_entries ∅ (JsString.split "," pkg)
  else Some (PkgPath pkg).

(** The resolution as the specification words it: every comma-separated
    segment is cut at its first colon, both parts trimmed. *)
Definition spec_entry (map : gmap string string) (value : string)
  : gmap string string :=
  <[JsString.trim (JsString.cut ":" value).1 :=
      JsString.trim (JsString.cut ":" value).2]> map.

Definition spec_mapping (pkg : string) : gmap string string :=
  fold_left spec_entry (JsString.split "," pkg) ∅.

(** The string begins with two slashes. *)
Definition begins_with_slashes (s : string) : bool :=
  match s with
  | String a (String b _) => Ascii.eqb a "/" && Ascii.eqb b "/"
  | _ => false
  end.

(** The test in the words of the specification: there is a colon, and
    what follows the first colon does not begin with two slashes. *)
Definition spec_is_mapping (pkg : string) : bool :=
  JsString.includes ":" pkg
  && negb (begins_with_slashes (JsString.cut ":" pkg).2).

(** A segment on which the two readings agree: no piece between colons is
    empty, and the name is not [__proto__]. *)
Definition plain_segment (value : string) : Prop :=
  Forall (λ piece, JsString.truthy piece = true) (JsString.split ":" value)
  ∧ JsString.trim (JsString.cut ":" value).1 ≠ "__proto__".

(** A segment with its colons squeezed: every run of colons counts as
    one colon, and the colons a segment begins or ends with are
    dropped. [started] says that a character other than a colon was
    met, [pending] that a colon was met since. *)
Fixpoint squeeze_colons_from (started pending : bool) (s : string) : string :=
  match s with
  | EmptyString => EmptyString
  | String a s' =>
      if Ascii.eqb a ":" then squeeze_colons_from started started s'
      else if pending
           then String ":" (String a (squeeze_colons_from true false s'))
           else String a (squeeze_colons_from true false s')
  end.

Definition squeeze_colons (s : string) : string :=
  squeeze_colons_from false false s.

(** The resolution of one segment in words, amended for colons in a
    row: the squeezed segment is cut at its first colon and both parts
    are trimmed; the name is mapped to the path as [map[name] = path]
    does it. *)
Definition amended_entry (map : gmap string string) (value : string)
  : gmap string string :=
  let segment := squeeze_colons value in
  obj_set (JsString.trim (JsString.cut ":" segment).1)
          (JsString.trim (JsString.cut ":" segment).2) map.

Definition amended_mapping (pkg : string) : gmap string string :=
  fold_left amended_entry (JsString.split "," pkg) ∅.

Local Close Scope string_scope.

(** ** The rendering engine's vectors and boxes

    [Vector3], [Box3] and [Sphere] of three.js, for the methods
    [_updateEnvironment] calls. *)

Module THREE.

Local Open Scope float_scope.

(** [Math.min] and [Math.max]: [NaN] is contagious and [-0] is below
    [+0]. *)
Definition Math_min (a b : float) : float :=
  if PrimFloat.is_nan a || PrimFloat.is_nan b then nan
  else if a <? b then a
  else if b <? a then b
  else if PrimFloat.get_sign a then a else b.

Definition Math_max (a b : float) : float :=
  if PrimFloat.is_nan a || PrimFloat.is_nan b then nan
  else if a <? b then b
  else if b <? a then a
  else if PrimFloat.get_sign a then b else a.

Record Vector3 := { x : float; y : float; z : float }.

Definition set_y (v : float) (p : Vector3) : Vector3 :=
  {| x := x p; y := v; z := z p |}.

Definition vmin (a b : Vector3) : Vector3 :=
  {| x := Math_min (x a) (x b); y := Math_min (y a) (y b);
     z := Math_min (z a) (z b) |}.

Definition vmax (a b : Vector3) : Vector3 :=
  {| x := Math_max (x a) (x b); y := Math_max (y a) (y b);
     z := Math_max (z a) (z b) |}.

Definition vadd (a b : Vector3) : Vector3 :=
  {| x := x a + x b; y := y a + y b; z := z a + z b |}.

Definition vsub (a b : Vector3) : Vector3 :=
  {| x := x a - x b; y := y a - y b; z := z a - z b |}.

Definition multiplyScalar (a : Vector3) (s : float) : Vector3 :=
  {| x := x a * s; y := y a * s; z := z a * s |}.

Definition vlength (a : Vector3) : float :=
  PrimFloat.sqrt (x a * x a + y a * y a + z a * z a).

Definition zero3 : Vector3 := {| x := 0; y := 0; z := 0 |}.

Record Box3 := { min : Vector3; max : Vector3 }.

(** [box.makeEmpty()]. *)
Definition makeEmpty : Box3 :=
  {| min := {| x := infinity; y := infinity; z := infinity |};
     max := {| x := neg_infinity; y := neg_infinity; z := neg_infinity |} |}.

(** [box.union(b)]. *)
Definition union (box b : Box3) : Box3 :=
  {| min := vmin (min box) (min b); max := vmax (max box) (max b) |}.

(** [box.isEmpty()]. *)
Definition isEmpty (box : Box3) : bool :=
  (x (max box) <? x (min box)) || (y (max box) <? y (min box))
  || (z (max box) <? z (min box)).

(** [box.getCenter(target)]. *)
Definition getCenter (box : Box3) : Vector3 :=
  if isEmpty box then zero3
  else multiplyScalar (vadd (min box) (max box)) 0.5.

(** [box.getSize(target)]. *)
Definition getSize (box : Box3) : Vector3 :=
  if isEmpty box then zero3 else vsub (max box) (min box).

Record Sphere := { center : Vector3; radius : float }.

(** [box.getBoundingSphere(target)]. *)
Definition getBoundingSphere (box : Box3) : Sphere :=
  if isEmpty box then {| center := zero3; radius := -1 |}
  else {| center := getCenter box; radius := vlength (getSize box) * 0.5 |}.

End THREE.

(** ** Scene-graph nodes *)

(** What [c.material] refers to: a material the importer made, or the one
    object [this._collisionMaterial] every viewer creates once. *)
Inductive Material :=
| ImportedMaterial (id : nat)
| collisionMaterial.

(** The parameters the constructor passes to [MeshPhongMaterial] for
    [_collisionMaterial]. *)
Record MeshPhongParameters := {
  transparent : bool;
  opacity : float;
  shininess : float;
  premultipliedAlpha : bool;
  color : Z;
  polygonOffset : bool;
  polygonOffsetFactor : float;
  polygonOffsetUnits : float
}.

Definition _collisionMaterial : MeshPhongParameters :=
  {| transparent := true;
     opacity := 0.35%float;
     shininess := 2.5%float;
     premultipliedAlpha := true;
     color := 0xffbe38%Z;
     polygonOffset := true;
     polygonOffsetFactor := (-1)%float;
     polygonOffsetUnits := (-1)%float |}.

(** The parameters a material is known to have been made with. *)
Definition parameters_of (m : Material) : option MeshPhongParameters :=
  match m with
  | collisionMaterial => Some _collisionMaterial
  | ImportedMaterial _ => None
  end.

(** What [c.raycast] refers to: the method of the prototype, or the
    module's [emptyRaycast]. *)
Inductive Raycast :=
| prototypeRaycast
| emptyRaycast.

(** A joint's movement limits. *)
Record Limit := { lower : float; upper : float }.

Section SceneGraph.

(** The values handed to joints ([...values], [c.jointValue]). *)
Context {V : Type}.

(** A joint object of the importer. The viewer reads [jointValue],
    writes [ignoreLimits] and calls [setJointValue]; [limit] and [pose]
    (the value the joint's transform currently realises) belong to the
    joint class. *)
Record URDFJoint := {
  jointValue : V;
  ignoreLimits : bool;
  limit : Limit;
  pose : V
}.

Definition set_ignoreLimits (b : bool) (j : URDFJoint) : URDFJoint :=
  {| jointValue := jointValue j; ignoreLimits := b;
     limit := limit j; pose := pose j |}.

(** The own state of a scene-graph object, as far as the viewer reads or
    writes it. [joint] is present exactly when [c.isURDFJoint];
    [dispose] is absent when the object has no [dispose] method and
    otherwise counts its calls; [geometry] is the box
    [Box3.expandByObject] unites for the object itself: the bounding box
    of [c.geometry] taken to world space, absent without geometry. *)
Record Node := {
  isURDFVisual : bool;
  isURDFCollider : bool;
  isMesh : bool;
  joint : option URDFJoint;
  visible : bool;
  castShadow : bool;
  receiveShadow : bool;
  material : Material;
  raycast : Raycast;
  dispose : option nat;
  geometry : option THREE.Box3
}.

Definition isURDFJoint (c : Node) : bool :=
  match joint c with Some _ => true | None => false end.

Definition set_joint (j : option URDFJoint) (c : Node) : Node :=
  {| isURDFVisual := isURDFVisual c; isURDFCollider := isURDFCollider c;
     isMesh := isMesh c; joint := j; visible := visible c;
     castShadow := castShadow c; receiveShadow := receiveShadow c;
     material := material c; raycast := raycast c; dispose := dispose c;
     geometry := geometry c |}.

Definition set_visible (b : bool) (c : Node) : Node :=
  {| isURDFVisual := isURDFVisual c; isURDFCollider := isURDFCollider c;
     isMesh := isMesh c; joint := joint c; visible := b;
     castShadow := castShadow c; receiveShadow := receiveShadow c;
     material := material c; raycast := raycast c; dispose := dispose c;
     geometry := geometry c |}.

Definition set_castShadow (b : bool) (c : Node) : Node :=
  {| isURDFVisual := isURDFVisual c; isURDFCollider := isURDFCollider c;
     isMesh := isMesh c; joint := joint c; visible := visible c;
     castShadow := b; receiveShadow := receiveShadow c;
     material := material c; raycast := raycast c; dispose := dispose c;
     geometry := geometry c |}.

Definition set_receiveShadow (b : bool) (c : Node) : Node :=
  {| isURDFVisual := isURDFVisual c; isURDFCollider := isURDFCollider c;
     isMesh := isMesh c; joint := joint c; visible := visible c;
     castShadow := castShadow c; receiveShadow := b;
     material := material c; raycast := raycast c; dispose := dispose c;
     geometry := geometry c |}.

Definition set_material (m : Material) (c : Node) : Node :=
  {| isURDFVisual := isURDFVisual c; isURDFCollider := isURDFCollider c;
     isMesh := isMesh c; joint := joint c; visible := visible c;
     castShadow := castShadow c; receiveShadow := receiveShadow c;
     material := m; raycast := raycast c; dispose := dispose c;
     geometry := geometry c |}.

Definition set_raycast (r : Raycast) (c : Node) : Node :=
  {| isURDFVisual := isURDFVisual c; isURDFCollider := isURDFCollider c;
     isMesh := isMesh c; joint := joint c; visible := visible c;
     castShadow := castShadow c; receiveShadow := receiveShadow c;
     material := material c; raycast := r; dispose := dispose c;
     geometry := geometry c |}.

Definition set_dispose (n : option nat) (c : Node) : Node :=
  {| isURDFVisual := isURDFVisual c; isURDFCollider := isURDFCollider c;
     isMesh := isMesh c; joint := joint c; visible := visible c;
     castShadow := castShadow c; receiveShadow := receiveShadow c;
     material := material c; raycast := raycast c; dispose := n;
     geometry := geometry c |}.

(** An object with its [children]. *)
Inductive Object3D :=
| Obj (c : Node) (children : list Object3D).

Definition node (o : Object3D) : Node :=
  match o with Obj c _ => c end.

Definition children (o : Object3D) : list Object3D :=
  match o with Obj _ cs => cs end.

(** [o.traverse(f)] for a callback that only writes the object it is
    given: the callback runs on the object, then on each child's
    subtree. *)
Fixpoint traverse (f : Node → Node) (o : Object3D) : Object3D :=
  match o with
  | Obj c cs => Obj (f c) (traverse f <$> cs)
  end.

(** [o.traverse(f)] for a callback that reads the object and updates an
    accumulator outside the graph. *)
Fixpoint traverse_fold {A : Type} (f : A → Node → A) (acc : A) (o : Object3D) : A :=
  match o with
  | Obj c cs => fold_left (traverse_fold f) cs (f acc c)
  end.

(** A reference to an object inside a model: the child indices from the
    root. *)
Definition Ref := list nat.

Fixpoint deref (p : Ref) (o : Object3D) : option Object3D :=
  match p with
  | [] => Some o
  | i :: p' =>
      match children o !! i with
      | Some c => deref p' c
      | None => None
      end
  end.

(** Running [f] on the object [p] refers to. *)
Fixpoint at_ref (p : Ref) (f : Object3D → Object3D) (o : Object3D) : Object3D :=
  match p with
  | [] => f o
  | i :: p' =>
      match o with
      | Obj c cs => Obj c (alter (at_ref p' f) i cs)
      end
  end.

End SceneGraph.

Arguments URDFJoint : clear implicits.
Arguments Node : clear implicits.
Arguments Object3D : clear implicits.

(** ** The collaborators' state and interface *)

(** [this.controls]: the target the viewer writes, and how often
    [update()] ran. *)
Record OrbitControls := {
  target : THREE.Vector3;
  updates : nat
}.

(** [this.directionalLight], with its target object and the frustum of its
    shadow camera. *)
Record DirectionalLight := {
  position : THREE.Vector3;
  target_position : THREE.Vector3;
  light_castShadow : bool;
  shadow_left : float;
  shadow_right : float;
  shadow_top : float;
  shadow_bottom : float
}.

(** What the viewer calls and cannot see into: the joint class's
    [setJointValue(...values)], which returns the joint after the call and
    whether it reports a change, and [OrbitControls.update()], which
    returns the target it leaves and whether it dispatched [change]. What
    a joint's method writes to other objects of the model is not part of
    the embedding. *)
Class Collaborators (V : Type) := {
  joint_setJointValue : URDFJoint V → list V → URDFJoint V * bool;
  controls_update : OrbitControls → THREE.Vector3 * bool
}.

(** ** Walks over a model *)

Section Walks.

Context {V : Type} `{!Collaborators V}.

Abbreviation Node := (Node V).
Abbreviation Object3D := (Object3D V).

(** [robot.traverse(c => c.dispose && c.dispose())]. *)
Definition call_dispose (c : Node) : Node :=
  match dispose c with
  | Some n => set_dispose (Some (S n)) c
  | None => c
  end.

Definition dispose_all (o : Object3D) : Object3D :=
  traverse call_dispose o.

(** The closure [updateMaterials] of [_loadUrdf]. Its [urdf] is the
    locator string, so that [urdf.materials] is [undefined] and the
    lookup [urdf.materials[materialName]] throws a [TypeError] at the
    first mesh the walk meets, after that mesh's two shadow flags were
    set. The result is the model at that moment and whether the walk
    threw. *)
Definition mesh_shadows (c : Node) : Node :=
  set_receiveShadow true (set_castShadow true c).

Fixpoint updateMaterials (o : Object3D) : Object3D * bool :=
  match o with
  | Obj c cs =>
      if isMesh c then (Obj (mesh_shadows c) cs, true)
      else
        let walk :=
          (fix walk (cs : list Object3D) : list Object3D * bool :=
             match cs with
             | [] => ([], false)
             | c' :: cs' =>
                 let r := updateMaterials c' in
                 if r.2 then (r.1 :: cs', true)
                 else ((r.1 :: (walk cs').1), (walk cs').2)
             end) in
        (Obj c (walk cs).1, (walk cs).2)
  end.

(** The callback of the walk in [_setIgnoreLimits]:
    [c.ignoreLimits = ignore; c.setJointValue(c.jointValue)]. *)
Definition reapply_joint (ignore : bool) (j : URDFJoint V) : URDFJoint V :=
  let j' := set_ignoreLimits ignore j in
  (joint_setJointValue j' [jointValue j']).1.

Definition ignoreLimits_callback (ignore : bool) (c : Node) : Node :=
  match joint c with
  | Some j => set_joint (Some (reapply_joint ignore j)) c
  | None => c
  end.

(** The first walk of [_updateCollisionVisibility]: every collider's
    [visible] is written, and a reference to it is pushed. *)
Definition visibility_callback (showCollision : bool) (c : Node) : Node :=
  if isURDFCollider c then set_visible showCollision c else c.

Fixpoint colliders (o : Object3D) : list Ref :=
  match o with
  | Obj c cs =>
      (if isURDFCollider c then [[]] else [])
      ++ (fix below (i : nat) (cs : list Object3D) : list Ref :=
            match cs with
            | [] => []
            | c' :: cs' => (cons i <$> colliders c') ++ below (S i) cs'
            end) 0%nat cs
  end.

(** The callback of the second walk, run below every collider. *)
Definition collision_mesh_callback (c : Node) : Node :=
  if isMesh c
  then set_castShadow false (set_material collisionMaterial (set_raycast emptyRaycast c))
  else c.

(** [colliders.forEach(coll => coll.traverse(...))]. *)
Definition forEach_collider (refs : list Ref) (o : Object3D) : Object3D :=
  fold_left (λ o' p, at_ref p (traverse collision_mesh_callback) o') refs o.

Definition updateCollisionVisibility_walk (showCollision : bool) (o : Object3D) : Object3D :=
  let o' := traverse (visibility_callback showCollision) o in
  forEach_collider (colliders o') o'.

(** [bbox.expandByObject(c)]: the object's own box, then its
    children's. *)
Fixpoint expandByObject (bbox : THREE.Box3) (o : Object3D) : THREE.Box3 :=
  match o with
  | Obj c cs =>
      fold_left expandByObject cs
        (match geometry c with
         | Some g => THREE.union bbox g
         | None => bbox
         end)
  end.

(** [robot.traverse(c => { if (c.isURDFVisual) bbox.expandByObject(c) })]. *)
Fixpoint expand_visuals (bbox : THREE.Box3) (o : Object3D) : THREE.Box3 :=
  match o with
  | Obj c cs =>
      fold_left expand_visuals cs
        (if isURDFVisual c then expandByObject bbox o else bbox)
  end.

Definition visual_bbox (o : Object3D) : THREE.Box3 :=
  expand_visuals THREE.makeEmpty o.

End Walks.

(** ** The viewer's state *)

(** What the host document decides and the viewer only reads: its
    attributes, the properties [autoRedraw] and [noAutoRecenter] a page may
    set on the element, whether it has a parent, and its client box. *)
Record Host := {
  attr_package : option string;
  attr_urdf : option string;
  has_display_shadow : bool;
  has_ignore_limits : bool;
  has_show_collision : bool;
  autoRedraw : bool;
  noAutoRecenter : bool;
  parentNode : bool;
  clientWidth : Z;
  clientHeight : Z
}.

(** The events the viewer dispatches; [angle_change] carries the joint
    name in [detail]. *)
Inductive CustomEvent :=
| urdf_change
| urdf_processed
| geometry_loaded
| angle_change (detail : string).

(** The callbacks the viewer hands to [requestAnimationFrame]. *)
Inductive FrameCallback :=
| FrameRenderLoop
| FrameLoad.

(** A call of [loader.load]: the request id its closures captured, the
    locator, and [loader.packages]. *)
Record Import := {
  import_id : nat;
  import_urdf : string;
  import_packages : Packages
}.

(** How a callback ends. *)
Inductive Completion :=
| Returned
| Threw.

Section Viewer.

Context {V : Type} `{!Collaborators V}.

Abbreviation Object3D := (Object3D V).

(** A model of the importer: its scene graph and its table
    [robot.joints] from joint names to joint objects. *)
Record URDFRobot := {
  scene : Object3D;
  joints : gmap string Ref
}.

Definition set_scene (o : Object3D) (r : URDFRobot) : URDFRobot :=
  {| scene := o; joints := joints r |}.

(** The element. [robot] and [world] hold keys of [heap]; [heap !! k]
    is the variable [robot] of the closures made by the call of
    [_loadUrdf] that took request id [k]. The last four fields record
    what the viewer did to the outside: the events it dispatched, the
    animation-frame callbacks it has pending, the imports it started and
    the number of calls of [renderer.render]. *)
Record Viewer := {
  host : Host;
  _requestId : nat;
  _dirty : bool;
  _loadScheduled : bool;
  _prevload : option string;
  robot : option nat;
  heap : gmap nat URDFRobot;
  world : list nat;
  plane_position_y : float;
  controls : OrbitControls;
  directionalLight : DirectionalLight;
  renderer_size : Z * Z;
  camera_aspect : float;
  events : list CustomEvent;
  animationFrames : list FrameCallback;
  imports : list Import;
  renders : nat
}.

Definition set_host (v : Host) (s : Viewer) : Viewer :=
  {| host := v; _requestId := _requestId s; _dirty := _dirty s;
     _loadScheduled := _loadScheduled s; _prevload := _prevload s;
     robot := robot s; heap := heap s; world := world s;
     plane_position_y := plane_position_y s; controls := controls s;
     directionalLight := directionalLight s;
     renderer_size := renderer_size s; camera_aspect := camera_aspect s;
     events := events s; animationFrames := animationFrames s;
     imports := imports s; renders := renders s |}.

Definition set__requestId (v : nat) (s : Viewer) : Viewer :=
  {| host := host s; _requestId := v; _dirty := _dirty s;
     _loadScheduled := _loadScheduled s; _prevload := _prevload s;
     robot := robot s; heap := heap s; world := world s;
     plane_position_y := plane_position_y s; controls := controls s;
     directionalLight := directionalLight s;
     renderer_size := renderer_size s; camera_aspect := camera_aspect s;
     events := events s; animationFrames := animationFrames s;
     imports := imports s; renders := renders s |}.

Definition set__dirty (v : bool) (s : Viewer) : Viewer :=
  {| host := host s; _requestId := _requestId s; _dirty := v;
     _loadScheduled := _loadScheduled s; _prevload := _prevload s;
     robot := robot s; heap := heap s; world := world s;
     plane_position_y := plane_position_y s; controls := controls s;
     directionalLight := directionalLight s;
     renderer_size := renderer_size s; camera_aspect := camera_aspect s;
     events := events s; animationFrames := animationFrames s;
     imports := imports s; renders := renders s |}.

Definition set__loadScheduled (v : bool) (s : Viewer) : Viewer :=
  {| host := host s; _requestId := _requestId s; _dirty := _dirty s;
     _loadScheduled := v; _prevload := _prevload s; robot := robot s;
     heap := heap s; world := world s;
     plane_position_y := plane_position_y s; controls := controls s;
     directionalLight := directionalLight s;
     renderer_size := renderer_size s; camera_aspect := camera_aspect s;
     events := events s; animationFrames := animationFrames s;
     imports := imports s; renders := renders s |}.

Definition set__prevload (v : option string) (s : Viewer) : Viewer :=
  {| host := host s; _requestId := _requestId s; _dirty := _dirty s;
     _loadScheduled := _loadScheduled s; _prevload := v; robot := robot s;
     heap := heap s; world := world s;
     plane_position_y := plane_position_y s; controls := controls s;
     directionalLight := directionalLight s;
     renderer_size := renderer_size s; camera_aspect := camera_aspect s;
     events := events s; animationFrames := animationFrames s;
     imports := imports s; renders := renders s |}.

Definition set_robot (v : option nat) (s : Viewer) : Viewer :=
  {| host := host s; _requestId := _requestId s; _dirty := _dirty s;
     _loadScheduled := _loadScheduled s; _prevload := _prevload s;
     robot := v; heap := heap s; world := world s;
     plane_position_y := plane_position_y s; controls := controls s;
     directionalLight := directionalLight s;
     renderer_size := renderer_size s; camera_aspect := camera_aspect s;
     events := events s; animationFrames := animationFrames s;
     imports := imports s; renders := renders s |}.

Definition set_heap (v : gmap nat URDFRobot) (s : Viewer) : Viewer :=
  {| host := host s; _requestId := _requestId s; _dirty := _dirty s;
     _loadScheduled := _loadScheduled s; _prevload := _prevload s;
     robot := robot s; heap := v; world := world s;
     plane_position_y := plane_position_y s; controls := controls s;
     directionalLight := directionalLight s;
     renderer_size := renderer_size s; camera_aspect := camera_aspect s;
     events := events s; animationFrames := animationFrames s;
     imports := imports s; renders := renders s |}.

Definition set_world (v : list nat) (s : Viewer) : Viewer :=
  {| host := host s; _requestId := _requestId s; _dirty := _dirty s;
     _loadScheduled := _loadScheduled s; _prevload := _prevload s;
     robot := robot s; heap := heap s; world := v;
     plane_position_y := plane_position_y s; controls := controls s;
     directionalLight := directionalLight s;
     renderer_size := renderer_size s; camera_aspect := camera_aspect s;
     events := events s; animationFrames := animationFrames s;
     imports := imports s; renders := renders s |}.

Definition set_plane_position_y (v : float) (s : Viewer) : Viewer :=
  {| host := host s; _requestId := _requestId s; _dirty := _dirty s;
     _loadScheduled := _loadScheduled s; _prevload := _prevload s;
     robot := robot s; heap := heap s; world := world s;
     plane_position_y := v; controls := controls s;
     directionalLight := directionalLight s;
     renderer_size := renderer_size s; camera_aspect := camera_aspect s;
     events := events s; animationFrames := animationFrames s;
     imports := imports s; renders := renders s |}.

Definition set_controls (v : OrbitControls) (s : Viewer) : Viewer :=
  {| host := host s; _requestId := _requestId s; _dirty := _dirty s;
     _loadScheduled := _loadScheduled s; _prevload := _prevload s;
     robot := robot s; heap := heap s; world := world s;
     plane_position_y := plane_position_y s; controls := v;
     directionalLight := directionalLight s;
     renderer_size := renderer_size s; camera_aspect := camera_aspect s;
     events := events s; animationFrames := animationFrames s;
     imports := imports s; renders := renders s |}.

Definition set_directionalLight (v : DirectionalLight) (s : Viewer) : Viewer :=
  {| host := host s; _requestId := _requestId s; _dirty := _dirty s;
     _loadScheduled := _loadScheduled s; _prevload := _prevload s;
     robot := robot s; heap := heap s; world := world s;
     plane_position_y := plane_position_y s; controls := controls s;
     directionalLight := v; renderer_size := renderer_size s;
     camera_aspect := camera_aspect s; events := events s;
     animationFrames := animationFrames s; imports := imports s;
     renders := renders s |}.

Definition set_renderer_size (v : Z * Z) (s : Viewer) : Viewer :=
  {| host := host s; _requestId := _requestId s; _dirty := _dirty s;
     _loadScheduled := _loadScheduled s; _prevload := _prevload s;
     robot := robot s; heap := heap s; world := world s;
     plane_position_y := plane_position_y s; controls := controls s;
     directionalLight := directionalLight s; renderer_size := v;
     camera_aspect := camera_aspect s; events := events s;
     animationFrames := animationFrames s; imports := imports s;
     renders := renders s |}.

Definition set_camera_aspect (v : float) (s : Viewer) : Viewer :=
  {| host := host s; _requestId := _requestId s; _dirty := _dirty s;
     _loadScheduled := _loadScheduled s; _prevload := _prevload s;
     robot := robot s; heap := heap s; world := world s;
     plane_position_y := plane_position_y s; controls := controls s;
     directionalLight := directionalLight s;
     renderer_size := renderer_size s; camera_aspect := v;
     events := events s; animationFrames := animationFrames s;
     imports := imports s; renders := renders s |}.

Definition set_events (v : list CustomEvent) (s : Viewer) : Viewer :=
  {| host := host s; _requestId := _requestId s; _dirty := _dirty s;
     _loadScheduled := _loadScheduled s; _prevload := _prevload s;
     robot := robot s; heap := heap s; world := world s;
     plane_position_y := plane_position_y s; controls := controls s;
     directionalLight := directionalLight s;
     renderer_size := renderer_size s; camera_aspect := camera_aspect s;
     events := v; animationFrames := animationFrames s;
     imports := imports s; renders := renders s |}.

Definition set_animationFrames (v : list FrameCallback) (s : Viewer) : Viewer :=
  {| host := host s; _requestId := _requestId s; _dirty := _dirty s;
     _loadScheduled := _loadScheduled s; _prevload := _prevload s;
     robot := robot s; heap := heap s; world := world s;
     plane_position_y := plane_position_y s; controls := controls s;
     directionalLight := directionalLight s;
     renderer_size := renderer_size s; camera_aspect := camera_aspect s;
     events := events s; animationFrames := v; imports := imports s;
     renders := renders s |}.

Definition set_imports (v : list Import) (s : Viewer) : Viewer :=
  {| host := host s; _requestId := _requestId s; _dirty := _dirty s;
     _loadScheduled := _loadScheduled s; _prevload := _prevload s;
     robot := robot s; heap := heap s; world := world s;
     plane_position_y := plane_position_y s; controls := controls s;
     directionalLight := directionalLight s;
     renderer_size := renderer_size s; camera_aspect := camera_aspect s;
     events := events s; animationFrames := animationFrames s;
     imports := v; renders := renders s |}.

Definition set_renders (v : nat) (s : Viewer) : Viewer :=
  {| host := host s; _requestId := _requestId s; _dirty := _dirty s;
     _loadScheduled := _loadScheduled s; _prevload := _prevload s;
     robot := robot s; heap := heap s; world := world s;
     plane_position_y := plane_position_y s; controls := controls s;
     directionalLight := directionalLight s;
     renderer_size := renderer_size s; camera_aspect := camera_aspect s;
     events := events s; animationFrames := animationFrames s;
     imports := imports s; renders := v |}.
(** *** Attribute getters *)

Definition package (s : Viewer) : string :=
  default EmptyString (attr_package (host s)).

Definition urdf (s : Viewer) : string :=
  default EmptyString (attr_urdf (host s)).

Definition displayShadow (s : Viewer) : bool := has_display_shadow (host s).

Definition ignoreLimits_attr (s : Viewer) : bool := has_ignore_limits (host s).

Definition showCollision (s : Viewer) : bool := has_show_collision (host s).

(** *** Small steps *)

Definition dispatchEvent (e : CustomEvent) (s : Viewer) : Viewer :=
  set_events (events s ++ [e]) s.

Definition requestAnimationFrame (cb : FrameCallback) (s : Viewer) : Viewer :=
  set_animationFrames (animationFrames s ++ [cb]) s.

(** The object [this.robot] refers to. *)
Definition the_robot (s : Viewer) : option URDFRobot :=
  match robot s with
  | Some k => heap s !! k
  | None => None
  end.

(** A write through [this.robot]. *)
Definition update_robot (f : Object3D → Object3D) (s : Viewer) : Viewer :=
  match robot s with
  | Some k => set_heap (alter (λ r, set_scene (f (scene r)) r) k (heap s)) s
  | None => s
  end.

(** [this.world.add(robot)]: the object leaves its parent, then becomes
    the last child. *)
Definition world_add (k : nat) (s : Viewer) : Viewer :=
  set_world (List.filter (λ k', negb (k' =? k)%nat) (world s) ++ [k]) s.

(** [robot.parent.remove(robot)] for a child of the world. *)
Definition world_remove (k : nat) (s : Viewer) : Viewer :=
  set_world (List.filter (λ k', negb (k' =? k)%nat) (world s)) s.

(** *** [redraw], [_updateEnvironment], [recenter] *)

Definition redraw (s : Viewer) : Viewer := set__dirty true s.

Definition epsilon : float := 0.001%float.

Definition fit_shadow (bbox : THREE.Box3) (dirLight : DirectionalLight)
  : DirectionalLight :=
  let minmax := THREE.radius (THREE.getBoundingSphere bbox) in
  let center := THREE.getCenter bbox in
  let offset := THREE.vsub (position dirLight) (target_position dirLight) in
  {| position := THREE.vadd center offset;
     target_position := center;
     light_castShadow := light_castShadow dirLight;
     shadow_left := (- minmax)%float;
     shadow_right := minmax;
     shadow_top := minmax;
     shadow_bottom := (- minmax)%float |}.

Definition set_light_castShadow (b : bool) (dirLight : DirectionalLight)
  : DirectionalLight :=
  {| position := position dirLight;
     target_position := target_position dirLight;
     light_castShadow := b;
     shadow_left := shadow_left dirLight;
     shadow_right := shadow_right dirLight;
     shadow_top := shadow_top dirLight;
     shadow_bottom := shadow_bottom dirLight |}.

Definition _updateEnvironment (s : Viewer) : Viewer :=
  match the_robot s with
  | None => s
  | Some robot =>
      let bbox := visual_bbox (scene robot) in
      let center := THREE.getCenter bbox in
      let s1 :=
        set_controls
          {| target := THREE.set_y (THREE.y center) (target (controls s));
             updates := updates (controls s) |} s in
      let s2 :=
        set_plane_position_y (THREE.y (THREE.min bbox) - epsilon)%float s1 in
      let dirLight := set_light_castShadow (displayShadow s2) (directionalLight s2) in
      if displayShadow s2
      then set_directionalLight (fit_shadow bbox dirLight) s2
      else set_directionalLight dirLight s2
  end.

Definition recenter (s : Viewer) : Viewer :=
  redraw (_updateEnvironment s).

(** *** [setJointValue] *)

(** The joint object a reference of [robot.joints] leads to. *)
Definition joint_at (p : Ref) (o : Object3D) : option (URDFJoint V) :=
  match deref p o with
  | Some c => joint (node c)
  | None => None
  end.

Definition write_joint (j : URDFJoint V) (o : Object3D) : Object3D :=
  match o with
  | Obj c cs => Obj (set_joint (Some j) c) cs
  end.

(** The names an object created by [{}] inherits from
    [Object.prototype]. What [o[name]] gives for one of them is a
    function, and for [__proto__] the prototype itself: a truthy value
    that has no method [setJointValue]. *)
Definition Object_prototype_names : list string :=
  [ "constructor"; "hasOwnProperty"; "isPrototypeOf";
    "propertyIsEnumerable"; "toLocaleString"; "toString"; "valueOf";
    "__proto__"; "__defineGetter__"; "__defineSetter__";
    "__lookupGetter__"; "__lookupSetter__" ]%string.

Definition inherited_name (name : string) : bool :=
  existsb (String.eqb name) Object_prototype_names.

(** What [robot.joints[jointName]] gives. The table is the importer's; it
    is taken to be a plain object, so that a name it does not hold itself
    is looked up in [Object.prototype]. *)
Inductive JointsProperty :=
| property_object (p : Ref)
| property_inherited
| property_undefined.

Definition joints_get (robot : URDFRobot) (jointName : string)
  : JointsProperty :=
  match joints robot !! jointName with
  | Some p => property_object p
  | None =>
      if inherited_name jointName then property_inherited
      else property_undefined
  end.

(** [setJointValue(jointName, ...values)]. The guard of the second line
    lets every truthy value pass; the call [.setJointValue(...values)] on
    a value without that method, an inherited one or an object of the
    model that is no joint, throws a [TypeError]. *)
Definition setJointValue (jointName : string) (values : list V) (s : Viewer)
  : Viewer * Completion :=
  match the_robot s with
  | None => (s, Returned)
  | Some robot =>
      match joints_get robot jointName with
      | property_undefined => (s, Returned)
      | property_inherited => (s, Threw)
      | property_object p =>
          match joint_at p (scene robot) with
          | None => (s, Threw)
          | Some j =>
              let r := joint_setJointValue j values in
              let s1 := update_robot (at_ref p (write_joint r.1)) s in
              (if r.2
               then dispatchEvent (angle_change jointName) (redraw s1)
               else s1,
               Returned)
          end
      end
  end.

(** [for (const name in values) this.setJointValue(name, values[name])],
    the entries in enumeration order. A call that throws ends the loop:
    the entries after it are not reached. *)
Fixpoint setJointValues (values : list (string * V)) (s : Viewer)
  : Viewer * Completion :=
  match values with
  | [] => (s, Returned)
  | e :: values' =>
      let r := setJointValue e.1 [e.2] s in
      match r.2 with
      | Returned => setJointValues values' r.1
      | Threw => r
      end
  end.

(** *** [_setIgnoreLimits], [_updateCollisionVisibility] *)

Definition _setIgnoreLimits (ignore noRecenter : bool) (s : Viewer) : Viewer :=
  match the_robot s with
  | None => s
  | Some _ =>
      let s1 := update_robot (traverse (ignoreLimits_callback ignore)) s in
      if noRecenter then s1 else recenter s1
  end.

Definition _updateCollisionVisibility (s : Viewer) : Viewer :=
  match the_robot s with
  | None => s
  | Some _ =>
      update_robot (updateCollisionVisibility_walk (showCollision s)) s
  end.

(** *** [updateSize] and the render loop *)

(** An integer as a number; exact for the sizes a client box takes. *)
Definition float_of_Z (n : Z) : float :=
  if (n <? 0)%Z
  then (- PrimFloat.of_uint63 (Uint63.of_Z (- n)))%float
  else PrimFloat.of_uint63 (Uint63.of_Z n).

Definition size_differs (s : Viewer) : bool :=
  negb ((renderer_size s).1 =? clientWidth (host s))%Z
  || negb ((renderer_size s).2 =? clientHeight (host s))%Z.

Definition updateSize (s : Viewer) : Viewer :=
  let w := clientWidth (host s) in
  let h := clientHeight (host s) in
  let s1 := if size_differs s then recenter s else s in
  set_camera_aspect (float_of_Z w / float_of_Z h)%float
    (set_renderer_size (w, h) s1).

(** [this.renderer.render(this.scene, this.camera)]. *)
Definition render (s : Viewer) : Viewer := set_renders (S (renders s)) s.

(** [this.controls.update()], with the listener [() => this.recenter()]
    of [change]. *)
Definition controls_update_call (s : Viewer) : Viewer :=
  let r := controls_update (controls s) in
  let s1 :=
    set_controls {| target := r.1; updates := S (updates (controls s)) |} s in
  if r.2 then recenter s1 else s1.

Definition draw (s : Viewer) : Viewer :=
  let s1 := if noAutoRecenter (host s) then s else _updateEnvironment s in
  set__dirty false (render s1).

(** The body of [renderLoop] guarded by [this.parentNode]. *)
Definition tick (s : Viewer) : Viewer :=
  let s1 := updateSize s in
  let s2 := if _dirty s1 || autoRedraw (host s1) then draw s1 else s1 in
  controls_update_call s2.

Definition renderLoop (s : Viewer) : Viewer :=
  requestAnimationFrame FrameRenderLoop
    (if parentNode (host s) then tick s else s).

(** *** Loading *)

Definition load_key (s : Viewer) : string :=
  String.append (package s) (String.append "|" (urdf s)).

Definition detach_robot (s : Viewer) : Viewer :=
  match robot s with
  | Some k =>
      set_robot None (world_remove k (update_robot dispose_all s))
  | None => s
  end.

Definition _scheduleLoad (s : Viewer) : Viewer :=
  if decide (_prevload s = Some (load_key s)) then s
  else
    let s1 := set__prevload (Some (load_key s)) s in
    if _loadScheduled s1 then s1
    else
      requestAnimationFrame FrameLoad
        (detach_robot (set__loadScheduled true s1)).

(** [_loadUrdf(pkg, urdf)] up to the call of [loader.load]. A
    [TypeError] of the package parsing rejects the promise of the
    [async] function: nothing after it runs, the caller goes on. *)
Definition _loadUrdf (pkg urdf : string) (s : Viewer) : Viewer :=
  let s1 := dispatchEvent urdf_change s in
  if JsString.truthy urdf then
    let s2 := set__requestId (S (_requestId s1)) s1 in
    let requestId := _requestId s2 in
    match parsePackages pkg with
    | Some packages =>
        set_imports
          (imports s2
           ++ [{| import_id := requestId; import_urdf := urdf;
                  import_packages := packages |}]) s2
    | None => s2
    end
  else s1.

(** What [manager.onLoad] and the callback of [loader.load] do once the
    model is [this.robot] and a child of the world and its materials
    were updated. *)
Definition after_mount (s : Viewer) : Viewer :=
  recenter
    (dispatchEvent geometry_loaded
       (dispatchEvent urdf_processed
          (_updateCollisionVisibility
             (_setIgnoreLimits (ignoreLimits_attr s) false s)))).

(** The variable [robot] of request [k] after [updateMaterials(robot)]
    ran on it, and whether that threw. *)
Definition updateMaterials_of (k : nat) (s : Viewer) : Viewer * bool :=
  match heap s !! k with
  | Some r =>
      let u := updateMaterials (scene r) in
      (set_heap (<[k := set_scene u.1 r]> (heap s)) s, u.2)
  | None => (s, true)
  end.

(** The callback handed to [loader.load] by the request with id [k],
    called with [model]. *)
Definition load_callback (k : nat) (model : URDFRobot) (s : Viewer)
  : Viewer * Completion :=
  let s1 := set_heap (<[k := model]> (heap s)) s in
  let u := updateMaterials_of k s1 in
  if u.2 then (u.1, Threw)
  else (after_mount (world_add k (set_robot (Some k) u.1)), Returned).

(** [manager.onLoad] of the request with id [k]. With [robot] still
    [null], [robot.traverse] and [updateMaterials(robot)] throw. *)
Definition manager_onLoad (k : nat) (s : Viewer) : Viewer * Completion :=
  if negb (_requestId s =? k)%nat then
    match heap s !! k with
    | Some r => (set_heap (<[k := set_scene (dispose_all (scene r)) r]> (heap s)) s,
                 Returned)
    | None => (s, Threw)
    end
  else
    match heap s !! k with
    | Some _ =>
        let u := updateMaterials_of k (world_add k (set_robot (Some k) s)) in
        if u.2 then (u.1, Threw) else (after_mount u.1, Returned)
    | None => (set_robot None s, Threw)
    end.

(** *** Animation frames *)

Definition run_callback (s : Viewer) (cb : FrameCallback) : Viewer :=
  match cb with
  | FrameRenderLoop => renderLoop s
  | FrameLoad => set__loadScheduled false (_loadUrdf (package s) (urdf s) s)
  end.

(** One animation frame: the callbacks requested before it run in the
    order of their requests; what they request waits for the next. *)
Definition animationFrame (s : Viewer) : Viewer :=
  fold_left run_callback (animationFrames s) (set_animationFrames [] s).

(** *** [attributeChangedCallback] *)

Inductive Attribute :=
| attr_package_name
| attr_urdf_name
| attr_up
| attr_display_shadow
| attr_ambient_color
| attr_ignore_limits
| attr_show_collision.

(** The world's rotation and the ambient light are not part of the
    state, so [up] and [ambient-color] only reach the common tail. *)
Definition attributeChangedCallback (attr : Attribute) (s : Viewer) : Viewer :=
  let s1 :=
    match attr with
    | attr_package_name | attr_urdf_name => _scheduleLoad s
    | attr_ignore_limits => _setIgnoreLimits (ignoreLimits_attr s) true s
    | _ => s
    end in
  let s2 := _updateCollisionVisibility s1 in
  if noAutoRecenter (host s2) then s2 else recenter s2.

(** The element after its constructor ran, for a host [h]: the fields as
    the constructor and the [init] methods leave them, the canvas at its
    default size, and then the first call of [renderLoop]. *)
Definition fresh (h : Host) : Viewer :=
  {| host := h;
     _requestId := 0;
     _dirty := false;
     _loadScheduled := false;
     _prevload := None;
     robot := None;
     heap := ∅;
     world := [];
     plane_position_y := (-0.5)%float;
     controls := {| target := THREE.zero3; updates := 0 |};
     directionalLight :=
       {| position := {| THREE.x := 4; THREE.y := 10; THREE.z := 1 |};
          target_position := THREE.zero3;
          light_castShadow := true;
          shadow_left := (-5)%float; shadow_right := 5%float;
          shadow_top := 5%float; shadow_bottom := (-5)%float |};
     renderer_size := (300, 150)%Z;
     camera_aspect := 1%float;
     events := [];
     animationFrames := [];
     imports := [];
     renders := 0 |}.

Definition constructed (h : Host) : Viewer := renderLoop (fresh h).

End Viewer.

Arguments URDFRobot : clear implicits.
Arguments Viewer : clear implicits.

(** ** Vocabulary of the specification *)

Section Vocabulary.

Context {V : Type} `{!Collaborators V}.

Abbreviation Node := (Node V).
Abbreviation Object3D := (Object3D V).

(** The references the first walk of [_updateCollisionVisibility] pushes
    while it is among the children [cs], the first of which has index
    [i]. *)
Fixpoint colliders_below (i : nat) (cs : list Object3D) : list Ref :=
  match cs with
  | [] => []
  | c' :: cs' => (cons i <$> colliders c') ++ colliders_below (S i) cs'
  end.

(** The collision update in one pass: an object that is a collider or
    lies below one gets the mesh callback. *)
Fixpoint collision_pass (below : bool) (o : Object3D) : Object3D :=
  match o with
  | Obj c cs =>
      let b := below || isURDFCollider c in
      Obj (if b then collision_mesh_callback c else c)
          (collision_pass b <$> cs)
  end.

(** Some object strictly above the one [p] refers to is a collider. *)
Fixpoint collider_above (p : Ref) (o : Object3D) : bool :=
  match p with
  | [] => false
  | i :: p' =>
      isURDFCollider (node o)
      || match children o !! i with
         | Some c => collider_above p' c
         | None => false
         end
  end.

(** The object [p] refers to is a collider or lies beneath one. *)
Definition beneath_collider (p : Ref) (o : Object3D) : bool :=
  collider_above p o
  || match deref p o with
     | Some c => isURDFCollider (node c)
     | None => false
     end.

(** What the collision update leaves at an object: the visibility
    callback, and below a collider the mesh callback. *)
Definition collision_update_at (show beneath : bool) (c : Node) : Node :=
  if beneath
  then collision_mesh_callback (visibility_callback show c)
  else visibility_callback show c.

Definition set_has_show_collision (b : bool) (h : Host) : Host :=
  {| attr_package := attr_package h; attr_urdf := attr_urdf h;
     has_display_shadow := has_display_shadow h;
     has_ignore_limits := has_ignore_limits h;
     has_show_collision := b;
     autoRedraw := autoRedraw h; noAutoRecenter := noAutoRecenter h;
     parentNode := parentNode h;
     clientWidth := clientWidth h; clientHeight := clientHeight h |}.

Definition set_locators (pkg locator : option string) (h : Host) : Host :=
  {| attr_package := pkg; attr_urdf := locator;
     has_display_shadow := has_display_shadow h;
     has_ignore_limits := has_ignore_limits h;
     has_show_collision := has_show_collision h;
     autoRedraw := autoRedraw h; noAutoRecenter := noAutoRecenter h;
     parentNode := parentNode h;
     clientWidth := clientWidth h; clientHeight := clientHeight h |}.

(** [applyCollisionVisibility(flag)]: the collision update with the
    [show-collision] attribute at [flag]. *)
Definition applyCollisionVisibility (flag : bool) (s : Viewer V) : Viewer V :=
  _updateCollisionVisibility
    (set_host (set_has_show_collision flag (host s)) s).


(** [scheduleLoad(packageSpec, locator)]: [_scheduleLoad] with the two
    attributes at these values. *)
Definition scheduleLoad (packageSpec locator : option string) (s : Viewer V)
  : Viewer V :=
  _scheduleLoad (set_host (set_locators packageSpec locator (host s)) s).

(** The joint object of the mounted model a reference leads to. *)
Definition robot_joint (p : Ref) (s : Viewer V) : option (URDFJoint V) :=
  match the_robot s with
  | Some r => joint_at p (scene r)
  | None => None
  end.

(** The own state of the object of the mounted model a reference leads
    to. *)
Definition robot_node (p : Ref) (s : Viewer V) : option Node :=
  match the_robot s with
  | Some r => node <$> deref p (scene r)
  | None => None
  end.

(** Whether that object is a collider or lies beneath one. *)
Definition robot_beneath_collider (p : Ref) (s : Viewer V) : bool :=
  match the_robot s with
  | Some r => beneath_collider p (scene r)
  | None => false
  end.

End Vocabulary.

(** ** Schedules *)

Section Schedules.

Context {V : Type} `{!Collaborators V}.

(** What happens to an element: a call of [scheduleLoad], an animation
    frame, the importer calling the callback of request [k] with a model,
    the loading manager of request [k] calling [onLoad]. *)
Inductive Happening :=
| CallsScheduleLoad (packageSpec locator : option string)
| Frame
| Loaded (k : nat) (model : URDFRobot V)
| ManagerLoaded (k : nat).

(** The element goes on after a callback that threw. *)
Definition happen (s : Viewer V) (e : Happening) : Viewer V :=
  match e with
  | CallsScheduleLoad packageSpec locator => scheduleLoad packageSpec locator s
  | Frame => animationFrame s
  | Loaded k model => (load_callback k model s).1
  | ManagerLoaded k => (manager_onLoad k s).1
  end.

Definition run (es : list Happening) (s : Viewer V) : Viewer V :=
  fold_left happen es s.

(** Calls of [scheduleLoad] one after the other, no frame in between. *)
Definition scheduleLoads (calls : list (option string * option string))
    (s : Viewer V) : Viewer V :=
  fold_left (λ s' c, scheduleLoad c.1 c.2 s') calls s.

Definition is_FrameLoad (cb : FrameCallback) : bool :=
  match cb with FrameLoad => true | FrameRenderLoop => false end.

(** The deferred loads that wait for the next frame. *)
Definition pending_loads (s : Viewer V) : nat :=
  length (List.filter is_FrameLoad (animationFrames s)).

(** The imports a deferred load starts when it runs: one for a locator
    that is not empty and a package string that parses, none otherwise. *)
Definition started_imports (s : Viewer V) : list Import :=
  if JsString.truthy (urdf s) then
    match parsePackages (package s) with
    | Some packages =>
        [{| import_id := S (_requestId s); import_urdf := urdf s;
            import_packages := packages |}]
    | None => []
    end
  else [].

(** Two states of the element agree on everything the load orchestrator
    owns or reads. *)
Definition same_load (s s' : Viewer V) : Prop :=
  host s' = host s
  ∧ _requestId s' = _requestId s
  ∧ _loadScheduled s' = _loadScheduled s
  ∧ _prevload s' = _prevload s
  ∧ robot s' = robot s
  ∧ heap s' = heap s
  ∧ world s' = world s
  ∧ imports s' = imports s.

End Schedules.

Arguments Happening : clear implicits.

(** ** A joint class after the specification *)

Definition clamp (l : Limit) (v : float) : float :=
  if (v <? lower l)%float then lower l
  else if (upper l <? v)%float then upper l
  else v.


Section SpecJoint.

(** The values of joints, scalars or vectors, with the way the class takes
    a value into the limits and the way it tells two values apart. *)
Context {V : Type}.

Variable clampV : Limit → V → V.

Variable eqbV : V → V → bool.

(** Modelled from the spec: the joint class and its [setJointValue] are
    not in the repository file. The specification gives a joint a requested
    value, a limit-ignoring policy and an effective value: the value is
    kept as requested, the joint realises it unchanged when limits are
    ignored and clamped to its limits otherwise, and it reports a change
    when the realised value changed. A call without a value does
    nothing. *)
Definition spec_setJointValue (j : URDFJoint V) (values : list V)
  : URDFJoint V * bool :=
  match values with
  | [] => (j, false)
  | v :: _ =>
      let e := if ignoreLimits j then v else clampV (limit j) v in
      ({| jointValue := v; ignoreLimits := ignoreLimits j;
          limit := limit j; pose := e |},
       negb (eqbV e (pose j)))
  end.

(** The joint realises its requested value under its current policy, as
    every call of [spec_setJointValue] with a value leaves it. *)
Definition realised (j : URDFJoint V) : Prop :=
  pose j = if ignoreLimits j then jointValue j
           else clampV (limit j) (jointValue j).


(** The collaborators with this joint class and any camera controller. *)
Definition spec_collaborators (update : OrbitControls → THREE.Vector3 * bool)
  : Collaborators V :=
  {| joint_setJointValue := spec_setJointValue; controls_update := update |}.

End SpecJoint.

(** A camera controller nobody touches. *)
Definition resting_controls (c : OrbitControls) : THREE.Vector3 * bool :=
  (target c, false).

(** ** Sample data *)

Module Sample.

#[global] Instance collaborators : Collaborators float :=
  spec_collaborators clamp PrimFloat.eqb resting_controls.

Definition host0 : Host :=
  {| attr_package := None; attr_urdf := None;
     has_display_shadow := false; has_ignore_limits := false;
     has_show_collision := false;
     autoRedraw := false; noAutoRecenter := false;
     parentNode := true;
     clientWidth := 300; clientHeight := 150 |}.

Definition object (visual collider mesh : bool)
    (j : option (URDFJoint float)) (g : option THREE.Box3) : Node float :=
  {| isURDFVisual := visual; isURDFCollider := collider; isMesh := mesh;
     joint := j; visible := true; castShadow := true; receiveShadow := true;
     material := ImportedMaterial 0; raycast := prototypeRaycast;
     dispose := None; geometry := g |}.

Definition box : THREE.Box3 :=
  {| THREE.min := {| THREE.x := -1; THREE.y := 0; THREE.z := -1 |};
     THREE.max := {| THREE.x := 1; THREE.y := 2; THREE.z := 1 |} |}.

Definition elbow : URDFJoint float :=
  {| jointValue := 0.5%float; ignoreLimits := false;
     limit := {| lower := (-1)%float; upper := 1%float |};
     pose := 0.5%float |}.

(** A link with a collider over a mesh, a visual over a mesh with the
    box [[(-1,0,-1),(1,2,1)]], and a joint. *)
Definition arm : Object3D float :=
  Obj (object false false false None None)
    [ Obj (object false true false None None)
        [ Obj (object false false true None None) [] ];
      Obj (object true false false None None)
        [ Obj (object false false true None (Some box)) [] ];
      Obj (object false false false (Some elbow) None) [] ].

Definition arm_robot : URDFRobot float :=
  {| scene := arm; joints := {[ "elbow"%string := [2] ]} |}.




(** A model of links and joints only. *)
Definition bare : Object3D float :=
  Obj (object false false false None None)
    [ Obj (object false false false (Some elbow) None) [] ].

Definition bare_robot : URDFRobot float :=
  {| scene := bare; joints := {[ "elbow"%string := [0] ]} |}.

(** The viewer right after its construction. *)
Definition idle : Viewer float := constructed host0.

(** One request for [locator] with its frame, the importer handing over
    [r], and the loading manager reporting the end of the load. *)
Definition load_of (locator : string) (r : URDFRobot float)
  : list (Happening float) :=
  [ CallsScheduleLoad None (Some locator);
    Frame;
    Loaded 1 r;
    ManagerLoaded 1 ].

(** The viewer with the arm mounted by its first request. *)
Definition with_arm : Viewer float := run (load_of "arm.urdf" arm_robot) idle.


(** Two requests one after the other, each with its frame; then the
    importer delivers the model of the first. *)
Definition superseded : list (Happening float) :=
  [ CallsScheduleLoad None (Some "a.urdf"%string);
    Frame;
    CallsScheduleLoad None (Some "b.urdf"%string);
    Frame;
    Loaded 1 bare_robot ].

End Sample.


(** ** The up axis ([_setUp]) *)

(** [this.world.rotation]: the three angles of an Euler rotation. *)
Record Euler := { euler_x : float; euler_y : float; euler_z : float }.

(** [Math.PI] and [Math.PI / 2]. *)
Definition PI : float := 0x1.921fb54442d18p+1%float.

Definition HALFPI : float := (PI / 2)%float.

(** The code units [toUpperCase] puts in the place of one code unit below
    256: the letters [a] to [z] and the accented letters from 224 to 254
    except the division sign move down by 32, the micro sign becomes the
    Greek capital mu, the sharp s becomes two capital S, the y with
    diaeresis becomes its capital at 376, everything else stays. *)
Definition upper_units (a : ascii) : list N :=
  let n := N_of_ascii a in
  if ((97 <=? n) && (n <=? 122))%N then [(n - 32)%N]
  else if (n =? 181)%N then [924%N]
  else if (n =? 223)%N then [83%N; 83%N]
  else if ((224 <=? n) && (n <=? 254) && negb (n =? 247))%N then [(n - 32)%N]
  else if (n =? 255)%N then [376%N]
  else [n].

(** [up.toUpperCase()], as code units. *)
Definition toUpperCase (up : string) : list N :=
  flat_map upper_units (list_ascii_of_string up).

(** The units the class [[^-+]] leaves: minus and plus. *)
Definition is_sign_unit (u : N) : bool := (u =? 45)%N || (u =? 43)%N.

(** The units the class [[^XYZ]] with the flag [i] leaves: the three
    letters in either case. *)
Definition is_axis_unit (u : N) : bool :=
  ((88 <=? u) && (u <=? 90))%N || ((120 <=? u) && (u <=? 122))%N.

(** [_setUp(up)] on the world's rotation. *)
Definition _setUp (up : string) (rotation : Euler) : Euler :=
  let up := if JsString.truthy up then up else "+Z"%string in
  let up := toUpperCase up in
  let sign := hd 43%N (List.filter is_sign_unit up) in
  let axis := hd 90%N (List.filter is_axis_unit up) in
  let r1 :=
    if (axis =? 88)%N
    then {| euler_x := 0; euler_y := 0;
            euler_z := if (sign =? 43)%N then HALFPI else (- HALFPI)%float |}
    else rotation in
  let r2 :=
    if (axis =? 90)%N
    then {| euler_x := if (sign =? 43)%N then (- HALFPI)%float else HALFPI;
            euler_y := 0; euler_z := 0 |}
    else r1 in
  if (axis =? 89)%N
  then {| euler_x := if (sign =? 43)%N then 0%float else PI;
          euler_y := 0; euler_z := 0 |}
  else r2.

(** The rotation for a direction, as the three branches of [_setUp] give
    it. *)
Inductive Axis := axis_X | axis_Y | axis_Z.

Definition up_rotation (positive : bool) (axis : Axis) : Euler :=
  match axis with
  | axis_X => {| euler_x := 0; euler_y := 0;
                 euler_z := if positive then HALFPI else (- HALFPI)%float |}
  | axis_Y => {| euler_x := if positive then 0%float else PI;
                 euler_y := 0; euler_z := 0 |}
  | axis_Z => {| euler_x := if positive then (- HALFPI)%float else HALFPI;
                 euler_y := 0; euler_z := 0 |}
  end.

(** The characters [_setUp] looks at. *)
Definition is_up_character (a : ascii) : bool :=
  existsb (Ascii.eqb a) (list_ascii_of_string "+-xyzXYZ").

(** ** Package strings: segments that throw *)

(** The segment holds nothing but colons (the empty segment does). *)
Definition only_colons (value : string) : bool :=
  forallb (Ascii.eqb ":") (list_ascii_of_string value).

(** No name and no path of the mapping begins or ends with white
    space. *)
Definition trimmed_entries (map : gmap string string) : Prop :=
  ∀ k v, map !! k = Some v → JsString.trim k = k ∧ JsString.trim v = v.

(** ** More vocabulary for models *)

Section ModelVocabulary.

Context {V : Type} `{!Collaborators V}.

(** Some object of the model is a mesh. *)
Fixpoint has_mesh (o : Object3D V) : bool :=
  match o with
  | Obj c cs => isMesh c || existsb has_mesh cs
  end.

(** Some object of the model has geometry. *)
Fixpoint has_geometry (o : Object3D V) : bool :=
  match o with
  | Obj c cs =>
      match geometry c with Some _ => true | None => false end
      || existsb has_geometry cs
  end.

(** The walk of [updateMaterials] among the children [cs] of an object
    that is no mesh, up to the first child whose walk throws. *)
Fixpoint updateMaterials_among (cs : list (Object3D V))
  : list (Object3D V) * bool :=
  match cs with
  | [] => ([], false)
  | c' :: cs' =>
      let r := updateMaterials c' in
      if r.2 then (r.1 :: cs', true)
      else ((r.1 :: (updateMaterials_among cs').1), (updateMaterials_among cs').2)
  end.

(** An object with its two shadow flags cleared. *)
Definition without_shadows (c : Node V) : Node V :=
  set_receiveShadow false (set_castShadow false c).

(** ** Leaving the document *)

Definition is_FrameRenderLoop (cb : FrameCallback) : bool :=
  match cb with FrameRenderLoop => true | FrameLoad => false end.

(** The requests of the render loop that wait for the next frame. *)
Definition pending_renderLoops (s : Viewer V) : nat :=
  length (List.filter is_FrameRenderLoop (animationFrames s)).

Definition count_renderLoops (cbs : list FrameCallback) : nat :=
  length (List.filter is_FrameRenderLoop cbs).

(** [cancelAnimationFrame(this._renderLoopId)] on the pending callbacks:
    [_renderLoopId] is the request the render loop made last. *)
Fixpoint cancel_renderLoop (cbs : list FrameCallback) : list FrameCallback :=
  match cbs with
  | [] => []
  | cb :: cbs' =>
      if is_FrameRenderLoop cb && negb (existsb is_FrameRenderLoop cbs')
      then cbs'
      else cb :: cancel_renderLoop cbs'
  end.

Definition disconnectedCallback (s : Viewer V) : Viewer V :=
  set_animationFrames (cancel_renderLoop (animationFrames s)) s.

(** Two states agree on everything but the models, what is mounted, the
    events, the dirty flag and the framing. *)
Definition same_outside (s s' : Viewer V) : Prop :=
  host s' = host s
  ∧ _requestId s' = _requestId s
  ∧ _loadScheduled s' = _loadScheduled s
  ∧ _prevload s' = _prevload s
  ∧ renderer_size s' = renderer_size s
  ∧ camera_aspect s' = camera_aspect s
  ∧ animationFrames s' = animationFrames s
  ∧ imports s' = imports s
  ∧ renders s' = renders s
  ∧ updates (controls s') = updates (controls s).

(** [this.robot] is a child of the world and an object of the heap. *)
Definition robot_mounted (s : Viewer V) : Prop :=
  ∀ k, robot s = Some k → k ∈ world s ∧ is_Some (heap s !! k).

(** The request ids of the imports are positive, pairwise different and
    at most the counter. *)
Definition request_ids_ok (s : Viewer V) : Prop :=
  Forall (λ i, 1 ≤ import_id i ≤ _requestId s) (imports s)
  ∧ NoDup (import_id <$> imports s).

End ModelVocabulary.

(** ** Letter case of plain letters *)

(** The capital of a letter from [a] to [z]; any other character as it
    is. *)
Definition capital (a : ascii) : ascii :=
  let n := N_of_ascii a in
  if ((97 <=? n) && (n <=? 122))%N then ascii_of_N (n - 32) else a.

Fixpoint capitals (s : string) : string :=
  match s with
  | EmptyString => EmptyString
  | String a s' => String (capital a) (capitals s')
  end.

(** * Properties *)

(** ** Scene graphs *)

Section GraphFacts.

Context {V : Type} `{!Collaborators V}.

Abbreviation Tree := (Object3D V).

(** Induction over an object with the property known of its children. *)
Lemma Object3D_children_ind (P : Tree → Prop) :
  (∀ c cs, Forall P cs → P (Obj c cs)) → ∀ o, P o.
Proof.
  intros step. fix IH 1. intros [c cs]. apply step.
  induction cs as [|o cs IHcs]; constructor; [apply IH | exact IHcs].
Qed.

Lemma node_traverse (f : Node V → Node V) (o : Tree) :
  node (traverse f o) = f (node o).
Proof. by destruct o. Qed.

Lemma children_traverse (f : Node V → Node V) (o : Tree) :
  children (traverse f o) = traverse f <$> children o.
Proof. by destruct o. Qed.

Lemma deref_traverse (f : Node V → Node V) (p : Ref) (o : Tree) :
  deref p (traverse f o) = traverse f <$> deref p o.
Proof.
  revert o. induction p as [|i p IH]; intros o; [done|].
  simpl. rewrite children_traverse, list_lookup_fmap.
  destruct (children o !! i) as [c|]; simpl; [apply IH | done].
Qed.

Lemma traverse_compose (f g : Node V → Node V) (o : Tree) :
  traverse f (traverse g o) = traverse (f ∘ g) o.
Proof.
  induction o as [c cs IH] using Object3D_children_ind. simpl. f_equal.
  rewrite <- list_fmap_compose. apply Forall_fmap_ext_1.
  eapply Forall_impl; [exact IH|]. intros o E. exact E.
Qed.

Lemma traverse_ext (f g : Node V → Node V) (o : Tree) :
  (∀ c, f c = g c) → traverse f o = traverse g o.
Proof.
  intros E. induction o as [c cs IH] using Object3D_children_ind. simpl.
  rewrite E. f_equal. by apply Forall_fmap_ext_1.
Qed.

End GraphFacts.

(** ** The collision update *)

Section CollisionFacts.

Context {V : Type} `{!Collaborators V}.

Abbreviation mark := (traverse (V:=V) collision_mesh_callback).

Lemma colliders_unfold (c : Node V) (cs : list (Object3D V)) :
  colliders (Obj c cs)
  = (if isURDFCollider c then [[]] else []) ++ colliders_below 0 cs.
Proof. reflexivity. Qed.

Lemma collision_mesh_callback_idem (c : Node V) :
  collision_mesh_callback (collision_mesh_callback c)
  = collision_mesh_callback c.
Proof.
  unfold collision_mesh_callback. destruct c as [? ? [] ? ? ? ? ? ? ? ?]; done.
Qed.

Lemma mark_idem (o : Object3D V) : mark (mark o) = mark o.
Proof.
  rewrite traverse_compose. apply traverse_ext. intros c.
  apply collision_mesh_callback_idem.
Qed.

Lemma collision_pass_below (o : Object3D V) : collision_pass true o = mark o.
Proof.
  induction o as [c cs IH] using Object3D_children_ind. simpl. f_equal.
  by apply Forall_fmap_ext_1.
Qed.

(** Below a collider that was walked, a later walk changes nothing. *)
Lemma at_ref_mark_marked (p : Ref) (o : Object3D V) :
  at_ref p mark (mark o) = mark o.
Proof.
  revert o. induction p as [|i p IH]; intros o; [apply mark_idem|].
  destruct o as [c cs]. simpl. f_equal.
  revert i. induction cs as [|x cs IHcs]; intros [|i]; simpl; [done|done| |].
  - f_equal. apply IH.
  - f_equal. apply IHcs.
Qed.

Lemma forEach_collider_marked (refs : list Ref) (o : Object3D V) :
  forEach_collider refs (mark o) = mark o.
Proof.
  unfold forEach_collider.
  induction refs as [|p refs IH]; simpl; [done|].
  by rewrite at_ref_mark_marked.
Qed.

(** References into one child only touch that child. *)
Lemma forEach_collider_child (c : Node V) (pre post : list (Object3D V))
    (x : Object3D V) (refs : list Ref) :
  forEach_collider (cons (length pre) <$> refs) (Obj c (pre ++ x :: post))
  = Obj c (pre ++ forEach_collider refs x :: post).
Proof.
  unfold forEach_collider. revert x.
  induction refs as [|p refs IH]; intros x; simpl; [done|].
  rewrite alter_app_r_alt by lia. rewrite Nat.sub_diag. simpl. apply IH.
Qed.

Lemma forEach_collider_app (refs1 refs2 : list Ref) (o : Object3D V) :
  forEach_collider (refs1 ++ refs2) o
  = forEach_collider refs2 (forEach_collider refs1 o).
Proof. unfold forEach_collider. apply fold_left_app. Qed.

Lemma forEach_collider_children (c : Node V) (pre cs : list (Object3D V)) :
  Forall (λ x, forEach_collider (colliders x) x = collision_pass false x) cs →
  forEach_collider (colliders_below (length pre) cs) (Obj c (pre ++ cs))
  = Obj c (pre ++ (collision_pass false <$> cs)).
Proof.
  intros Hcs. revert pre.
  induction Hcs as [|x cs Hx _ IH]; intros pre; simpl; [done|].
  rewrite forEach_collider_app, forEach_collider_child, Hx.
  specialize (IH (pre ++ [collision_pass false x])).
  rewrite length_app in IH. simpl in IH.
  replace (length pre + 1) with (S (length pre)) in IH by lia.
  rewrite <- !app_assoc in IH. exact IH.
Qed.

(** The two walks of [_updateCollisionVisibility] over the references
    amount to one pass over the model. *)
Lemma forEach_collider_pass (o : Object3D V) :
  forEach_collider (colliders o) o = collision_pass false o.
Proof.
  induction o as [c cs IH] using Object3D_children_ind.
  rewrite colliders_unfold.
  destruct (isURDFCollider c) eqn:Hc.
  - rewrite forEach_collider_app.
    change (forEach_collider [[]] (Obj c cs)) with (mark (Obj c cs)).
    rewrite forEach_collider_marked.
    rewrite <- collision_pass_below. simpl. by rewrite Hc.
  - simpl. rewrite Hc. apply (forEach_collider_children c [] cs IH).
Qed.

Lemma updateCollisionVisibility_walk_pass (show : bool) (o : Object3D V) :
  updateCollisionVisibility_walk show o
  = collision_pass false (traverse (visibility_callback show) o).
Proof. apply forEach_collider_pass. Qed.

End CollisionFacts.

Section CollisionNodes.

Context {V : Type} `{!Collaborators V}.

Lemma node_collision_pass (b : bool) (o : Object3D V) :
  node (collision_pass b o)
  = if b || isURDFCollider (node o)
    then collision_mesh_callback (node o) else node o.
Proof. by destruct o. Qed.

Lemma deref_collision_pass (b : bool) (p : Ref) (o : Object3D V) :
  deref p (collision_pass b o)
  = collision_pass (b || collider_above p o) <$> deref p o.
Proof.
  revert b o. induction p as [|i p IH]; intros b [c cs]; simpl.
  - by rewrite orb_false_r.
  - rewrite list_lookup_fmap. destruct (cs !! i) as [x|]; simpl; [|done].
    rewrite IH. by rewrite orb_assoc.
Qed.

Lemma collider_above_traverse (f : Node V → Node V) (p : Ref) (o : Object3D V) :
  (∀ c, isURDFCollider (f c) = isURDFCollider c) →
  collider_above p (traverse f o) = collider_above p o.
Proof.
  intros Hf. revert o. induction p as [|i p IH]; intros [c cs]; simpl; [done|].
  rewrite Hf, list_lookup_fmap. destruct (cs !! i) as [x|]; simpl; [|done].
  by rewrite IH.
Qed.

Lemma isURDFCollider_visibility_callback (show : bool) (c : Node V) :
  isURDFCollider (visibility_callback show c) = isURDFCollider c.
Proof. unfold visibility_callback. by destruct (isURDFCollider c) eqn:E. Qed.

Lemma deref_updateCollisionVisibility_walk (show : bool) (p : Ref) (o : Object3D V) :
  node <$> deref p (updateCollisionVisibility_walk show o)
  = collision_update_at show (beneath_collider p o) <$> (node <$> deref p o).
Proof.
  rewrite updateCollisionVisibility_walk_pass, deref_collision_pass, deref_traverse.
  rewrite collider_above_traverse by apply isURDFCollider_visibility_callback.
  unfold beneath_collider. destruct (deref p o) as [x|]; simpl; [|done].
  rewrite node_collision_pass, node_traverse, isURDFCollider_visibility_callback.
  done.
Qed.

Lemma isURDFCollider_collision_mesh_callback (c : Node V) :
  isURDFCollider (collision_mesh_callback c) = isURDFCollider c.
Proof. unfold collision_mesh_callback. by destruct (isMesh c). Qed.

Lemma isURDFCollider_collision_update_at (show beneath : bool) (c : Node V) :
  isURDFCollider (collision_update_at show beneath c) = isURDFCollider c.
Proof.
  unfold collision_update_at. destruct beneath.
  - by rewrite isURDFCollider_collision_mesh_callback,
      isURDFCollider_visibility_callback.
  - apply isURDFCollider_visibility_callback.
Qed.

Lemma collider_above_collision_pass (b : bool) (p : Ref) (o : Object3D V) :
  collider_above p (collision_pass b o) = collider_above p o.
Proof.
  revert b o. induction p as [|i p IH]; intros b [c cs]; simpl; [done|].
  rewrite list_lookup_fmap.
  assert (isURDFCollider
            (if b || isURDFCollider c then collision_mesh_callback c else c)
          = isURDFCollider c) as ->.
  { destruct (b || isURDFCollider c);
      [apply isURDFCollider_collision_mesh_callback | done]. }
  destruct (cs !! i) as [x|]; simpl; [|done]. by rewrite IH.
Qed.

Lemma beneath_collider_updateCollisionVisibility_walk (show : bool) (p : Ref)
    (o : Object3D V) :
  beneath_collider p (updateCollisionVisibility_walk show o)
  = beneath_collider p o.
Proof.
  unfold beneath_collider at 1.
  pose proof (deref_updateCollisionVisibility_walk show p o) as Hn.
  rewrite updateCollisionVisibility_walk_pass in *.
  rewrite collider_above_collision_pass.
  rewrite collider_above_traverse by apply isURDFCollider_visibility_callback.
  unfold beneath_collider. f_equal.
  destruct (deref p (collision_pass false _)) as [x|],
    (deref p o) as [y|]; simpl in Hn; try done.
  injection Hn as ->. apply isURDFCollider_collision_update_at.
Qed.

End CollisionNodes.

Section ViewerFacts.

Context {V : Type} `{!Collaborators V}.

Lemma the_robot_update_robot (f : Object3D V → Object3D V) (s : Viewer V) :
  the_robot (update_robot f s)
  = (λ r, set_scene (f (scene r)) r) <$> the_robot s.
Proof.
  unfold the_robot, update_robot. destruct (robot s) as [k|] eqn:E; simpl.
  - rewrite E. apply lookup_alter_eq.
  - by rewrite E.
Qed.

Lemma the_robot_set_host (h : Host) (s : Viewer V) :
  the_robot (set_host h s) = the_robot s.
Proof. reflexivity. Qed.

Lemma robot_node_applyCollisionVisibility (flag : bool) (p : Ref) (s : Viewer V) :
  robot_node p (applyCollisionVisibility flag s)
  = collision_update_at flag (robot_beneath_collider p s) <$> robot_node p s.
Proof.
  unfold robot_node, robot_beneath_collider, applyCollisionVisibility,
    _updateCollisionVisibility.
  rewrite the_robot_set_host.
  destruct (the_robot s) as [r|] eqn:E.
  - rewrite the_robot_update_robot, the_robot_set_host, E. simpl.
    apply deref_updateCollisionVisibility_walk.
  - rewrite the_robot_set_host, E. done.
Qed.

Lemma robot_beneath_collider_applyCollisionVisibility (flag : bool) (p : Ref)
    (s : Viewer V) :
  robot_beneath_collider p (applyCollisionVisibility flag s)
  = robot_beneath_collider p s.
Proof.
  unfold robot_beneath_collider, applyCollisionVisibility,
    _updateCollisionVisibility.
  rewrite the_robot_set_host.
  destruct (the_robot s) as [r|] eqn:E.
  - rewrite the_robot_update_robot, the_robot_set_host, E. simpl.
    apply beneath_collider_updateCollisionVisibility_walk.
  - rewrite the_robot_set_host, E. done.
Qed.

End ViewerFacts.

(** ** Collision visibility: claims C4 and C10 *)

Section CollisionClaims.

Context {V : Type} `{!Collaborators V}.

Lemma visible_collision_update_at (show beneath : bool) (c : Node V) :
  visible (collision_update_at show beneath c)
  = if isURDFCollider c then show else visible c.
Proof.
  unfold collision_update_at, collision_mesh_callback, visibility_callback.
  destruct beneath, (isURDFCollider c), (isMesh c) eqn:Hm; simpl;
    rewrite ?Hm; done.
Qed.

Lemma mesh_collision_update_at (show : bool) (c : Node V) :
  isMesh c = true →
  raycast (collision_update_at show true c) = emptyRaycast
  ∧ material (collision_update_at show true c) = collisionMaterial
  ∧ castShadow (collision_update_at show true c) = false
  ∧ isMesh (collision_update_at show true c) = true.
Proof.
  intros Hm. unfold collision_update_at, collision_mesh_callback.
  assert (isMesh (visibility_callback show c) = true) as Hm'.
  { unfold visibility_callback. by destruct (isURDFCollider c). }
  rewrite Hm'. simpl. by rewrite Hm'.
Qed.

Lemma collision_update_at_flag (beneath : bool) (c : Node V) :
  collision_update_at true beneath c
  = visibility_callback true (collision_update_at false beneath c).
Proof.
  unfold collision_update_at, collision_mesh_callback, visibility_callback.
  destruct c as [vis col mesh j v cs rs m r d g].
  destruct beneath, col, mesh; reflexivity.
Qed.

(** C4, amended. Every call of the collision update leaves every
    collider's visibility at the flag of that call. After a call with
    the flag set and a call with the flag cleared every collider is
    therefore hidden, which is the visibility it had before the first
    call exactly when it was hidden then. *)
Theorem collision_visibility_show_then_hide
    (s : Viewer V) (p : Ref) (c : Node V) :
  robot_node p s = Some c →
  isURDFCollider c = true →
  (∀ flag : bool,
      visible <$> robot_node p (applyCollisionVisibility flag s) = Some flag)
  ∧ visible <$> robot_node p
      (applyCollisionVisibility false (applyCollisionVisibility true s))
    = Some false
  ∧ (visible <$> robot_node p
       (applyCollisionVisibility false (applyCollisionVisibility true s))
     = Some (visible c)
     ↔ visible c = false).
Proof.
  intros Hp Hc.
  assert (∀ flag, visible <$> robot_node p (applyCollisionVisibility flag s)
                  = Some flag) as Hflag.
  { intros flag. rewrite robot_node_applyCollisionVisibility, Hp. simpl.
    by rewrite visible_collision_update_at, Hc. }
  assert (visible <$> robot_node p
            (applyCollisionVisibility false (applyCollisionVisibility true s))
          = Some false) as Hhide.
  { rewrite robot_node_applyCollisionVisibility,
      robot_node_applyCollisionVisibility, Hp. simpl.
    rewrite visible_collision_update_at, isURDFCollider_collision_update_at.
    by rewrite Hc. }
  split; [exact Hflag|]. split; [exact Hhide|].
  rewrite Hhide. split; [by intros [= <-] | by intros ->].
Qed.

(** C10. Every call of the collision update, with the flag set or
    cleared, leaves every mesh that is a collider or lies beneath one
    with the empty ray-pick, the shared collision material and no shadow
    casting, and a later call with the flag cleared leaves them so. The
    models the two flags produce differ by the colliders' visibility
    only: the one for the set flag is the one for the cleared flag with
    the visibility callback run on it. The shared material is
    translucent. *)
Theorem collision_update_marks_meshes
    (flag : bool) (s : Viewer V) (p : Ref) (c : Node V) :
  robot_node p s = Some c →
  robot_beneath_collider p s = true →
  isMesh c = true →
  (∃ c1, robot_node p (applyCollisionVisibility flag s) = Some c1
         ∧ raycast c1 = emptyRaycast
         ∧ material c1 = collisionMaterial
         ∧ castShadow c1 = false)
  ∧ (∃ c2, robot_node p
             (applyCollisionVisibility false (applyCollisionVisibility flag s))
           = Some c2
           ∧ raycast c2 = emptyRaycast
           ∧ material c2 = collisionMaterial
           ∧ castShadow c2 = false)
  ∧ (∀ q : Ref,
        robot_node q (applyCollisionVisibility true s)
        = visibility_callback true
            <$> robot_node q (applyCollisionVisibility false s))
  ∧ transparent <$> parameters_of collisionMaterial = Some true
  ∧ opacity <$> parameters_of collisionMaterial = Some 0.35%float.
Proof.
  intros Hp Hb Hm.
  destruct (mesh_collision_update_at flag c Hm) as (Hr & Hmat & Hs & Hm').
  split.
  { exists (collision_update_at flag true c).
    rewrite robot_node_applyCollisionVisibility, Hp, Hb.
    split; [reflexivity | done]. }
  split.
  { exists (collision_update_at false true (collision_update_at flag true c)).
    rewrite robot_node_applyCollisionVisibility,
      robot_beneath_collider_applyCollisionVisibility,
      robot_node_applyCollisionVisibility, Hp, Hb.
    split; [reflexivity|].
    destruct (mesh_collision_update_at false _ Hm') as (? & ? & ? & _).
    done. }
  split; [|done].
  intros q. rewrite !robot_node_applyCollisionVisibility.
  destruct (robot_node q s) as [x|]; simpl; [|done].
  by rewrite collision_update_at_flag.
Qed.

End CollisionClaims.

(** With the sample model shown with its collision geometry, the collider
    is visible before the two calls and hidden after them. *)
Lemma collision_visibility_roundtrip_fails :
  isURDFCollider
    <$> robot_node [0] (applyCollisionVisibility true Sample.with_arm)
  = Some true
  ∧ visible
      <$> robot_node [0]
            (applyCollisionVisibility false
               (applyCollisionVisibility true
                  (applyCollisionVisibility true Sample.with_arm)))
    ≠ visible
        <$> robot_node [0] (applyCollisionVisibility true Sample.with_arm).
Proof. split; [by vm_compute|]. vm_compute. discriminate. Qed.

Lemma collision_visibility_show_then_hide_witness :
  (∀ flag : bool,
      visible <$> robot_node [0] (applyCollisionVisibility flag Sample.with_arm)
      = Some flag)
  ∧ visible <$> robot_node [0]
      (applyCollisionVisibility false
         (applyCollisionVisibility true Sample.with_arm))
    = Some false
  ∧ (visible <$> robot_node [0]
       (applyCollisionVisibility false
          (applyCollisionVisibility true Sample.with_arm))
     = Some (visible (Sample.object false true false None None))
     ↔ visible (Sample.object false true false None None) = false).
Proof.
  apply (collision_visibility_show_then_hide Sample.with_arm [0]
           (Sample.object false true false None None));
    reflexivity.
Defined.

Lemma collision_update_marks_meshes_witness :
  ∃ c1, robot_node [0; 0] (applyCollisionVisibility true Sample.with_arm)
        = Some c1
        ∧ raycast c1 = emptyRaycast
        ∧ material c1 = collisionMaterial
        ∧ castShadow c1 = false.
Proof.
  apply (collision_update_marks_meshes true Sample.with_arm [0; 0]
           (Sample.object false false true None None));
    reflexivity.
Defined.

(** ** Package specifications: claim C5 *)

Section PackageFacts.

Import JsString.

Lemma cut_without (c : ascii) (s : string) :
  includes c s = false → cut c s = (s, EmptyString).
Proof.
  induction s as [|a s IH]; simpl; [done|].
  destruct (Ascii.eqb a c); [done|]. intros H. by rewrite (IH H).
Qed.

(** The pieces of [split] are the part before the first separator and,
    when there is a separator, the pieces of the rest. *)
Lemma split_cut (c : ascii) (s : string) :
  split c s
  = (cut c s).1 :: (if includes c s then split c (cut c s).2 else []).
Proof.
  induction s as [|a s IH]; simpl; [done|].
  destruct (Ascii.eqb a c); simpl; [done|]. by rewrite IH.
Qed.

Lemma join_split (c : ascii) (s : string) :
  join (String c EmptyString) (split c s) = s.
Proof.
  unfold join. induction s as [|a s IH]; [done|].
  change (split c (String a s))
    with (if Ascii.eqb a c then EmptyString :: split c s
          else match split c s with
               | p :: ps => String a p :: ps
               | [] => [String a EmptyString]
               end).
  destruct (split c s) as [|p ps] eqn:Es; [by rewrite split_cut in Es|].
  destruct (Ascii.eqb a c) eqn:E.
  - apply Ascii.eqb_eq in E as ->.
    change (String c (String.concat (String c EmptyString) (p :: ps))
            = String c s).
    by rewrite IH.
  - replace (String.concat (String c EmptyString) (String a p :: ps))
      with (String a (String.concat (String c EmptyString) (p :: ps)))
      by (by destruct ps).
    by rewrite IH.
Qed.

Lemma filter_truthy (l : list string) :
  Forall (λ piece, truthy piece = true) l → List.filter truthy l = l.
Proof. induction 1 as [|x l Hx _ IH]; simpl; [done|]. by rewrite Hx, IH. Qed.

(** On a segment without an empty piece the callback of the [reduce]
    cuts at the first colon. *)
Lemma package_entry_plain (map : gmap string string) (value : string) :
  plain_segment value →
  package_entry map value = Some (spec_entry map value).
Proof.
  intros [Hpieces Hname]. unfold package_entry, spec_entry.
  rewrite (filter_truthy _ Hpieces), split_cut.
  assert (join ":" (if includes ":" value
                    then split ":" (cut ":" value).2 else [])
          = (cut ":" value).2) as ->.
  { destruct (includes ":" value) eqn:E.
    - apply join_split.
    - by rewrite (cut_without _ _ E). }
  unfold obj_set.
  destruct (String.eqb_spec (trim (cut ":" value).1) "__proto__"); done.
Qed.

Lemma reduce_entries_plain (map : gmap string string) (values : list string) :
  Forall plain_segment values →
  reduce_entries map values = Some (fold_left spec_entry values map).
Proof.
  intros H. revert map.
  induction H as [|v vs Hv _ IH]; intros map; simpl; [done|].
  by rewrite (package_entry_plain _ _ Hv), IH.
Qed.

Lemma substring0_cut_slashes (t : string) :
  String.eqb (substring0 2 (cut ":" t).1) "//" = begins_with_slashes t.
Proof.
  unfold begins_with_slashes, substring0.
  destruct t as [|a [|b t]]; [done| |].
  - cbn [cut]. destruct (Ascii.eqb a ":"); [done|].
    cbn. by destruct (a =? "/")%char.
  - cbn [cut]. destruct (Ascii.eqb_spec a ":") as [->|Ha]; [done|].
    destruct (Ascii.eqb_spec b ":") as [->|Hb]; cbn.
    + rewrite andb_false_r. by destruct (a =? "/")%char.
    + destruct (a =? "/")%char; cbn; [|done].
      replace (String.substring 0 0 (cut ":" t).1) with EmptyString
        by (by destruct (cut ":" t).1).
      by destruct (b =? "/")%char.
Qed.

(** No piece of [split] holds the separator. *)
Lemma split_pieces_without (c : ascii) (s : string) :
  Forall (λ piece, includes c piece = false) (split c s).
Proof.
  induction s as [|a s IH]; simpl; [by repeat constructor|].
  destruct (Ascii.eqb a c) eqn:E; [by constructor|].
  destruct (split c s) as [|p ps].
  - repeat constructor. simpl. by rewrite E.
  - apply Forall_cons in IH as [Hp Hps]. constructor; [|done].
    simpl. by rewrite E.
Qed.

Lemma append_EmptyString (s : string) : String.append s EmptyString = s.
Proof.
  induction s as [|a s IH]; [done|].
  change (String a (String.append s EmptyString) = String a s). by rewrite IH.
Qed.

Lemma cut_append (c : ascii) (x t : string) :
  includes c x = false →
  cut c (String.append x (String c t)) = (x, t).
Proof.
  induction x as [|a x IH]; simpl.
  - by rewrite Ascii.eqb_refl.
  - destruct (Ascii.eqb a c); [discriminate|]. intros H. by rewrite (IH H).
Qed.

Lemma join_cons (sep x : string) (l : list string) :
  join sep (x :: l)
  = String.append x
      match l with
      | [] => EmptyString
      | _ => String.append sep (join sep l)
      end.
Proof. destruct l; simpl; [by rewrite append_EmptyString | done]. Qed.

Lemma split_all_empty (s : string) :
  List.filter truthy (split ":" s) = [] ↔ only_colons s = true.
Proof.
  unfold only_colons. induction s as [|a s IH]; [done|].
  change (split ":" (String a s))
    with (if Ascii.eqb a ":" then EmptyString :: split ":" s
          else match split ":" s with
               | p :: ps => String a p :: ps
               | [] => [String a EmptyString]
               end).
  cbn [forallb list_ascii_of_string]. rewrite (Ascii.eqb_sym ":" a).
  destruct (Ascii.eqb a ":"); cbn [andb List.filter truthy]; [exact IH|].
  split; [|discriminate]. by destruct (split ":" s).
Qed.

(** Joining the pieces that are not empty squeezes the colons: the three
    states of [squeeze_colons_from] against the pieces of the string. *)
Lemma squeeze_colons_pieces (s : string) :
  squeeze_colons_from false false s
  = join ":" (List.filter truthy (split ":" s))
  ∧ squeeze_colons_from true true s
    = match List.filter truthy (split ":" s) with
      | [] => EmptyString
      | l => String ":" (join ":" l)
      end
  ∧ squeeze_colons_from true false s
    = match split ":" s with
      | [] => EmptyString
      | p :: ps =>
          String.append p
            match List.filter truthy ps with
            | [] => EmptyString
            | l => String ":" (join ":" l)
            end
      end.
Proof.
  induction s as [|a s (IHa & IHb & IHc)]; [done|].
  change (split ":" (String a s))
    with (if Ascii.eqb a ":" then EmptyString :: split ":" s
          else match split ":" s with
               | p :: ps => String a p :: ps
               | [] => [String a EmptyString]
               end).
  cbn [squeeze_colons_from].
  destruct (Ascii.eqb a ":").
  - cbn [List.filter truthy String.append]. by rewrite IHa, IHb.
  - rewrite IHc. destruct (split ":" s) as [|p ps] eqn:Es;
      [by rewrite split_cut in Es|].
    cbn [List.filter truthy]. rewrite join_cons.
    cbn [String.append].
    by destruct (List.filter truthy ps).
Qed.

(** On a segment that holds a character other than a colon the callback
    of the [reduce] is the amended resolution. *)
Lemma package_entry_amended (map : gmap string string) (value : string) :
  only_colons value = false →
  package_entry map value = Some (amended_entry map value).
Proof.
  intros Hc. unfold package_entry, amended_entry, squeeze_colons.
  destruct (squeeze_colons_pieces value) as (-> & _ & _).
  pose proof (split_pieces_without ":" value) as Hp.
  destruct (List.filter truthy (split ":" value)) as [|first rest] eqn:E.
  { apply split_all_empty in E. congruence. }
  assert (includes ":" first = false) as Hf.
  { assert (In first (List.filter truthy (split ":" value))) as Hin
      by (rewrite E; by left).
    apply filter_In in Hin as [Hin _].
    rewrite Forall_forall in Hp. apply Hp. by apply list_elem_of_In. }
  rewrite join_cons. destruct rest as [|y rest].
  - rewrite append_EmptyString, (cut_without _ _ Hf). done.
  - change (String.append ":" (join ":" (y :: rest)))
      with (String ":" (join ":" (y :: rest))).
    by rewrite (cut_append _ _ _ Hf).
Qed.

Lemma reduce_entries_amended (map : gmap string string) (values : list string) :
  Forall (λ value, only_colons value = false) values →
  reduce_entries map values = Some (fold_left amended_entry values map).
Proof.
  intros H. revert map.
  induction H as [|v vs Hv _ IH]; intros map; simpl; [done|].
  by rewrite (package_entry_amended _ _ Hv), IH.
Qed.

Lemma plain_segment_pieces (value : string) :
  plain_segment value → only_colons value = false.
Proof.
  intros [Hpieces _]. destruct (only_colons value) eqn:E; [|done].
  apply split_all_empty in E. rewrite (filter_truthy _ Hpieces) in E.
  by rewrite split_cut in E.
Qed.

Lemma amended_entry_plain (map : gmap string string) (value : string) :
  plain_segment value → amended_entry map value = spec_entry map value.
Proof.
  intros Hp.
  pose proof (package_entry_amended map value (plain_segment_pieces _ Hp)) as Ha.
  rewrite (package_entry_plain _ _ Hp) in Ha. congruence.
Qed.

Lemma is_package_map_words (pkg : string) :
  is_package_map pkg = spec_is_mapping pkg.
Proof.
  unfold is_package_map, spec_is_mapping. destruct (includes ":" pkg) eqn:E; [|done]. simpl.
  rewrite (split_cut ":" pkg), E. simpl.
  rewrite (split_cut ":" (cut ":" pkg).2). simpl.
  by rewrite substring0_cut_slashes.
Qed.

End PackageFacts.

(** C5, amended. The test of the code is the one the specification
    words: a colon, and no two slashes right after the first colon. When
    it fails the string is the single path, unchanged. When it holds and
    every comma-separated segment holds a character other than a colon,
    the result is the mapping of the amended resolution: in every segment
    a run of colons counts as one colon and the colons at its ends are
    dropped, the segment is cut at its first colon, both parts are
    trimmed and the name is mapped to the path. Where no segment has an
    empty piece between colons or the name [__proto__], that is the cut
    of the segment as written at its first colon. The scenario's string
    resolves to [base ↦ /models/base, arm ↦ /models/arm]; a later
    segment replaces an earlier one of the same name, and the name
    [__proto__] records nothing. *)
Theorem package_resolution (pkg : string) :
  is_package_map pkg = spec_is_mapping pkg
  ∧ (spec_is_mapping pkg = false → parsePackages pkg = Some (PkgPath pkg))
  ∧ (spec_is_mapping pkg = true →
     Forall (λ value, only_colons value = false) (JsString.split "," pkg) →
     parsePackages pkg = Some (PkgMap (amended_mapping pkg)))
  ∧ (∀ map value,
       plain_segment value → amended_entry map value = spec_entry map value)
  ∧ (spec_is_mapping pkg = true →
     Forall plain_segment (JsString.split "," pkg) →
     parsePackages pkg = Some (PkgMap (spec_mapping pkg)))
  ∧ parsePackages "base:/models/base,arm:/models/arm"
    = Some (PkgMap {[ "base"%string := "/models/base"%string;
                      "arm"%string := "/models/arm"%string ]})
  ∧ parsePackages "arm:/a,__proto__:/models,arm:/models/arm"
    = Some (PkgMap {[ "arm"%string := "/models/arm"%string ]}).
Proof.
  pose proof (is_package_map_words pkg) as Hw.
  split; [exact Hw|]. unfold parsePackages. rewrite Hw.
  split; [by intros ->|].
  split.
  { intros -> Hpieces. unfold amended_mapping.
    by rewrite (reduce_entries_amended _ _ Hpieces). }
  split; [apply amended_entry_plain|].
  split; [|by vm_compute].
  intros -> Hplain. unfold spec_mapping.
  by rewrite (reduce_entries_plain _ _ Hplain).
Qed.

Lemma package_resolution_witness :
  parsePackages "base::/models/base:v2:, arm:/models/arm"
  = Some (PkgMap {[ "base"%string := "/models/base:v2"%string;
                    "arm"%string := "/models/arm"%string ]})
  ∧ parsePackages "base:/models/base,arm:/models/arm"
    = Some (PkgMap (spec_mapping "base:/models/base,arm:/models/arm")).
Proof.
  split.
  - destruct (package_resolution "base::/models/base:v2:, arm:/models/arm")
      as (_ & _ & H & _).
    rewrite H; [by vm_compute | reflexivity |].
    repeat constructor.
  - destruct (package_resolution "base:/models/base,arm:/models/arm")
      as (_ & _ & _ & _ & H & _).
    apply H; [reflexivity|].
    repeat constructor; vm_compute; discriminate.
Defined.

(** The scenario's string does not resolve to the mapping the scenario
    states: [base] is mapped to [/models/base]. And a segment with an
    empty piece between colons is not cut at its first colon: for [a::b]
    the path is [b], not [:b]. *)
Lemma package_scenario_fails :
  parsePackages "base:/models/base,arm:/models/arm"
  ≠ Some (PkgMap {[ "base"%string := "/models/arm/../base"%string;
                    "arm"%string := "/models/arm"%string ]})
  ∧ parsePackages "a::b" ≠ Some (PkgMap (spec_mapping "a::b")).
Proof.
  split; intros H;
    apply (f_equal (λ r, match r with
                         | Some (PkgMap m) =>
                             (m !! "base"%string, m !! "a"%string)
                         | _ => (None, None)
                         end)) in H;
    vm_compute in H; discriminate.
Qed.

(** Cutting at the first colon is not what the code does on a segment
    with an empty piece, and a segment without any piece throws. *)
Example package_entry_empty_piece :
  package_entry ∅ "a::b" = Some {[ "a"%string := "b"%string ]}
  ∧ spec_entry ∅ "a::b" = {[ "a"%string := ":b"%string ]}
  ∧ parsePackages "a:b," = None.
Proof. by vm_compute. Qed.

(** ** Framing: claims C3 and C7 *)

Section EnvironmentFacts.

Context {V : Type} `{!Collaborators V}.

Lemma the_robot_None (s : Viewer V) : robot s = None → the_robot s = None.
Proof. unfold the_robot. by intros ->. Qed.

(** [_updateEnvironment] writes the controls' target, the plane and the
    light, nothing else. *)
Lemma _updateEnvironment_frame (s : Viewer V) :
  host (_updateEnvironment s) = host s
  ∧ _requestId (_updateEnvironment s) = _requestId s
  ∧ _dirty (_updateEnvironment s) = _dirty s
  ∧ _loadScheduled (_updateEnvironment s) = _loadScheduled s
  ∧ _prevload (_updateEnvironment s) = _prevload s
  ∧ robot (_updateEnvironment s) = robot s
  ∧ heap (_updateEnvironment s) = heap s
  ∧ world (_updateEnvironment s) = world s
  ∧ renderer_size (_updateEnvironment s) = renderer_size s
  ∧ camera_aspect (_updateEnvironment s) = camera_aspect s
  ∧ events (_updateEnvironment s) = events s
  ∧ animationFrames (_updateEnvironment s) = animationFrames s
  ∧ imports (_updateEnvironment s) = imports s
  ∧ renders (_updateEnvironment s) = renders s
  ∧ updates (controls (_updateEnvironment s)) = updates (controls s).
Proof.
  unfold _updateEnvironment. destruct (the_robot s) as [r|]; [|done].
  unfold displayShadow. simpl. by destruct (has_display_shadow (host s)).
Qed.

Lemma recenter_frame (s : Viewer V) :
  host (recenter s) = host s
  ∧ _requestId (recenter s) = _requestId s
  ∧ _dirty (recenter s) = true
  ∧ _loadScheduled (recenter s) = _loadScheduled s
  ∧ _prevload (recenter s) = _prevload s
  ∧ robot (recenter s) = robot s
  ∧ heap (recenter s) = heap s
  ∧ world (recenter s) = world s
  ∧ renderer_size (recenter s) = renderer_size s
  ∧ camera_aspect (recenter s) = camera_aspect s
  ∧ events (recenter s) = events s
  ∧ animationFrames (recenter s) = animationFrames s
  ∧ imports (recenter s) = imports s
  ∧ renders (recenter s) = renders s
  ∧ updates (controls (recenter s)) = updates (controls s).
Proof.
  pose proof (_updateEnvironment_frame s) as F.
  unfold recenter, redraw. simpl. tauto.
Qed.

Lemma the_robot_recenter (s : Viewer V) : the_robot (recenter s) = the_robot s.
Proof.
  unfold the_robot.
  destruct (recenter_frame s) as (_ & _ & _ & _ & _ & -> & -> & _). done.
Qed.

(** C3, amended. With a model mounted, [recenter] puts the ground plane
    at the lowest [y] of the box of the visual nodes minus epsilon and the
    controls' target at the [y] of the box's centre. For the box
    [[(-1,0,-1),(1,2,1)]] the plane is at [0 - epsilon] and the target at
    [1]. *)
Theorem recenter_plane_and_target (s : Viewer V) (r : URDFRobot V) :
  the_robot s = Some r →
  plane_position_y (recenter s)
  = (THREE.y (THREE.min (visual_bbox (scene r))) - epsilon)%float
  ∧ THREE.y (target (controls (recenter s)))
    = THREE.y (THREE.getCenter (visual_bbox (scene r)))
  ∧ (visual_bbox (scene r) = Sample.box →
     plane_position_y (recenter s) = (0 - epsilon)%float
     ∧ THREE.y (target (controls (recenter s))) = 1%float).
Proof.
  intros Hr.
  assert (plane_position_y (recenter s)
          = (THREE.y (THREE.min (visual_bbox (scene r))) - epsilon)%float
          ∧ THREE.y (target (controls (recenter s)))
            = THREE.y (THREE.getCenter (visual_bbox (scene r)))) as [Hp Ht].
  { unfold recenter, redraw, _updateEnvironment. rewrite Hr.
    unfold displayShadow. simpl.
    by destruct (has_display_shadow (host s)). }
  split; [exact Hp|]. split; [exact Ht|].
  intros Hb. rewrite Hp, Ht, Hb. done.
Qed.

(** C7, amended. Without a model, [recenter] sets the dirty flag and
    leaves every other part of the viewer as it was, the ground plane, the
    controls and the light among them. *)
Theorem recenter_without_model (s : Viewer V) :
  robot s = None →
  recenter s = set__dirty true s
  ∧ _dirty (recenter s) = true
  ∧ plane_position_y (recenter s) = plane_position_y s
  ∧ controls (recenter s) = controls s
  ∧ directionalLight (recenter s) = directionalLight s.
Proof.
  intros Hr. apply the_robot_None in Hr.
  assert (recenter s = set__dirty true s) as ->; [|done].
  unfold recenter, redraw, _updateEnvironment. by rewrite Hr.
Qed.

End EnvironmentFacts.

(** The sample model's visual box is [[(-1,0,-1),(1,2,1)]]; [recenter]
    does not put the plane at [-1 - epsilon]. *)
Lemma recenter_plane_not_below_x :
  visual_bbox (scene Sample.arm_robot) = Sample.box
  ∧ ¬ (plane_position_y (recenter Sample.with_arm) = (-1 - epsilon)%float
       ∧ THREE.y (target (controls (recenter Sample.with_arm))) = 1%float).
Proof.
  split; [reflexivity|]. intros [H _].
  apply (f_equal (λ x, (x =? -1 - epsilon)%float)) in H.
  vm_compute in H. discriminate.
Qed.

Lemma recenter_plane_and_target_witness :
  plane_position_y (recenter Sample.with_arm) = (0 - epsilon)%float
  ∧ THREE.y (target (controls (recenter Sample.with_arm))) = 1%float.
Proof.
  destruct (recenter_plane_and_target Sample.with_arm Sample.arm_robot)
    as (_ & _ & H); [reflexivity|].
  apply H. reflexivity.
Defined.

(** A freshly constructed viewer has no model and a clear dirty flag;
    [recenter] sets the flag. *)
Lemma recenter_without_model_marks_dirty :
  robot Sample.idle = None
  ∧ recenter Sample.idle ≠ Sample.idle.
Proof.
  split; [reflexivity|]. intros H.
  apply (f_equal _dirty) in H. vm_compute in H. discriminate.
Qed.

Lemma recenter_without_model_witness :
  recenter Sample.idle = set__dirty true Sample.idle
  ∧ _dirty (recenter Sample.idle) = true
  ∧ plane_position_y (recenter Sample.idle)
    = plane_position_y Sample.idle
  ∧ controls (recenter Sample.idle)
    = controls Sample.idle
  ∧ directionalLight (recenter Sample.idle)
    = directionalLight Sample.idle.
Proof.
  apply (recenter_without_model Sample.idle). reflexivity.
Defined.

(** ** The render loop: claim C8 *)

Section RenderLoopFacts.

Context {V : Type} `{!Collaborators V}.

Lemma updateSize_frame (s : Viewer V) :
  host (updateSize s) = host s
  ∧ renderer_size (updateSize s) = (clientWidth (host s), clientHeight (host s))
  ∧ _dirty (updateSize s) = _dirty s || size_differs s
  ∧ renders (updateSize s) = renders s
  ∧ updates (controls (updateSize s)) = updates (controls s)
  ∧ animationFrames (updateSize s) = animationFrames s.
Proof.
  unfold updateSize. destruct (size_differs s); simpl.
  - pose proof (_updateEnvironment_frame s) as F.
    rewrite orb_true_r. intuition congruence.
  - by rewrite orb_false_r.
Qed.

Lemma draw_frame (s : Viewer V) :
  host (draw s) = host s
  ∧ renderer_size (draw s) = renderer_size s
  ∧ _dirty (draw s) = false
  ∧ renders (draw s) = S (renders s)
  ∧ updates (controls (draw s)) = updates (controls s)
  ∧ animationFrames (draw s) = animationFrames s.
Proof.
  unfold draw, render. destruct (noAutoRecenter (host s)); simpl; [done|].
  pose proof (_updateEnvironment_frame s) as F. intuition congruence.
Qed.

Lemma controls_update_call_frame (s : Viewer V) :
  host (controls_update_call s) = host s
  ∧ renderer_size (controls_update_call s) = renderer_size s
  ∧ _dirty (controls_update_call s)
    = _dirty s || (controls_update (controls s)).2
  ∧ renders (controls_update_call s) = renders s
  ∧ updates (controls (controls_update_call s)) = S (updates (controls s))
  ∧ animationFrames (controls_update_call s) = animationFrames s.
Proof.
  unfold controls_update_call. destruct (controls_update (controls s)).2; simpl.
  - match goal with |- context [_updateEnvironment ?t] =>
      pose proof (_updateEnvironment_frame t) as F
    end.
    simpl in F. rewrite orb_true_r. intuition congruence.
  - by rewrite orb_false_r.
Qed.

(** What [_updateEnvironment] leaves in the plane and the controls. *)
Lemma _updateEnvironment_plane (s : Viewer V) :
  plane_position_y (_updateEnvironment s)
  = match the_robot s with
    | Some r => (THREE.y (THREE.min (visual_bbox (scene r))) - epsilon)%float
    | None => plane_position_y s
    end.
Proof.
  unfold _updateEnvironment. destruct (the_robot s) as [r|]; [|done].
  unfold displayShadow. simpl. by destruct (has_display_shadow (host s)).
Qed.

Lemma _updateEnvironment_controls (s : Viewer V) :
  controls (_updateEnvironment s)
  = match the_robot s with
    | Some r =>
        {| target :=
             THREE.set_y (THREE.y (THREE.getCenter (visual_bbox (scene r))))
               (target (controls s));
           updates := updates (controls s) |}
    | None => controls s
    end.
Proof.
  unfold _updateEnvironment. destruct (the_robot s) as [r|]; [|done].
  unfold displayShadow. simpl. by destruct (has_display_shadow (host s)).
Qed.

Lemma the_robot__updateEnvironment (s : Viewer V) :
  the_robot (_updateEnvironment s) = the_robot s.
Proof.
  unfold the_robot.
  by destruct (_updateEnvironment_frame s) as (_ & _ & _ & _ & _ & -> & -> & _).
Qed.

(** Framing again, from a state with the same model whose plane and
    controls are those before or after a first framing, changes
    nothing. *)
Lemma reframed_plane (s t : Viewer V) :
  the_robot t = the_robot s →
  plane_position_y t = plane_position_y s
  ∨ plane_position_y t = plane_position_y (_updateEnvironment s) →
  plane_position_y (_updateEnvironment t)
  = plane_position_y (_updateEnvironment s).
Proof.
  intros Hr H. rewrite !_updateEnvironment_plane in *. rewrite Hr.
  destruct (the_robot s); [done|]. by destruct H.
Qed.

Lemma reframed_controls (s t : Viewer V) :
  the_robot t = the_robot s →
  controls t = controls s ∨ controls t = controls (_updateEnvironment s) →
  controls (_updateEnvironment t) = controls (_updateEnvironment s).
Proof.
  intros Hr H. rewrite !_updateEnvironment_controls in *. rewrite Hr.
  destruct (the_robot s); [|by destruct H].
  by destruct H as [-> | ->].
Qed.

Lemma updateSize_framing (s : Viewer V) :
  the_robot (updateSize s) = the_robot s
  ∧ camera_aspect (updateSize s)
    = (float_of_Z (clientWidth (host s)) / float_of_Z (clientHeight (host s)))%float
  ∧ plane_position_y (updateSize s)
    = plane_position_y (if size_differs s then _updateEnvironment s else s)
  ∧ controls (updateSize s)
    = controls (if size_differs s then _updateEnvironment s else s).
Proof.
  unfold updateSize.
  destruct (size_differs s); [|done].
  change (the_robot (set_camera_aspect _ (set_renderer_size _ (recenter s))))
    with (the_robot (recenter s)).
  by rewrite the_robot_recenter.
Qed.

Lemma draw_framing (s : Viewer V) :
  the_robot (draw s) = the_robot s
  ∧ camera_aspect (draw s) = camera_aspect s
  ∧ plane_position_y (draw s)
    = plane_position_y (if noAutoRecenter (host s) then s
                        else _updateEnvironment s)
  ∧ controls (draw s)
    = controls (if noAutoRecenter (host s) then s else _updateEnvironment s).
Proof.
  unfold draw, render. destruct (noAutoRecenter (host s)); [done|].
  change (the_robot (set__dirty false (set_renders _ (_updateEnvironment s))))
    with (the_robot (_updateEnvironment s)).
  rewrite the_robot__updateEnvironment.
  cbn [camera_aspect plane_position_y controls set__dirty set_renders].
  by destruct (_updateEnvironment_frame s) as (_&_&_&_&_&_&_&_&_&->&_).
Qed.

Lemma controls_update_call_framing (s : Viewer V) :
  camera_aspect (controls_update_call s) = camera_aspect s
  ∧ plane_position_y (controls_update_call s)
    = plane_position_y (if (controls_update (controls s)).2
                        then _updateEnvironment s else s).
Proof.
  unfold controls_update_call.
  destruct (controls_update (controls s)).2; [|done].
  match goal with |- context [recenter ?t] =>
    destruct (recenter_frame t) as (_&_&_&_&_&_&_&_&_&Hc&_);
    change (plane_position_y (recenter t))
      with (plane_position_y (_updateEnvironment t));
    assert (plane_position_y (_updateEnvironment t)
            = plane_position_y (_updateEnvironment s)) as Hp
      by (apply reframed_plane; [done | by left])
  end.
  by rewrite Hc, Hp.
Qed.

Lemma size_differs_box (s : Viewer V) :
  size_differs s
  = negb (bool_decide
            (renderer_size s = (clientWidth (host s), clientHeight (host s)))).
Proof.
  unfold size_differs. destruct (renderer_size s) as [w h]. simpl.
  destruct (Z.eqb_spec w (clientWidth (host s))) as [->|Hw];
    destruct (Z.eqb_spec h (clientHeight (host s))) as [->|Hh]; simpl;
    case_bool_decide; naive_solver.
Qed.

(** C8. A tick of the render loop on an attached element. The renderer
    and the camera take the size of the client box. [renderer.render]
    runs once when the dirty flag is set - it was before the tick, or the
    size changed and [updateSize] ran [recenter] - or [autoRedraw] is
    set, and not at all otherwise. The flag is cleared after the draw:
    when the tick ends it is set exactly when the controls, updated once
    in either case and after the draw, reported a change, whose listener
    recenters. The plane is where [_updateEnvironment] puts it when the
    size changed, when a draw recentred or when the controls changed, and
    where it was otherwise. The next tick is requested. *)
Theorem render_loop_tick (s : Viewer V) :
  parentNode (host s) = true →
  let w := clientWidth (host s) in
  let h := clientHeight (host s) in
  let resized := negb (bool_decide (renderer_size s = (w, h))) in
  let drawn := _dirty s || resized || autoRedraw (host s) in
  let framed := resized || drawn && negb (noAutoRecenter (host s)) in
  let seen := controls (if framed then _updateEnvironment s else s) in
  let changed := (controls_update seen).2 in
  renderer_size (renderLoop s) = (w, h)
  ∧ camera_aspect (renderLoop s) = (float_of_Z w / float_of_Z h)%float
  ∧ renders (renderLoop s) = (if drawn then S (renders s) else renders s)
  ∧ _dirty (renderLoop s) = changed
  ∧ updates (controls (renderLoop s)) = S (updates (controls s))
  ∧ plane_position_y (renderLoop s)
    = plane_position_y (if framed || changed then _updateEnvironment s else s)
  ∧ animationFrames (renderLoop s) = animationFrames s ++ [FrameRenderLoop].
Proof.
  intros Ha w h resized drawn framed seen changed.
  unfold renderLoop, requestAnimationFrame. rewrite Ha.
  cbn [renderer_size camera_aspect renders _dirty controls plane_position_y
       animationFrames set_animationFrames].
  unfold tick.
  destruct (updateSize_frame s) as (Hh & Hsz & Hd & Hr & Hu & Hf).
  destruct (updateSize_framing s) as (Hm & Hca & Hpl & Hc).
  destruct (draw_frame (updateSize s)) as (Hh' & Hsz' & Hd' & Hr' & Hu' & Hf').
  destruct (draw_framing (updateSize s)) as (Hm' & Hca' & Hpl' & Hc').
  rewrite Hh in *. rewrite Hd in *. rewrite size_differs_box in *.
  fold w h resized in Hd, Hpl, Hc, Hsz, Hca |- *. fold drawn.
  set (s2 := if drawn then draw (updateSize s) else updateSize s).
  assert (renderer_size s2 = (w, h)
          ∧ camera_aspect s2 = (float_of_Z w / float_of_Z h)%float
          ∧ renders s2 = (if drawn then S (renders s) else renders s)
          ∧ _dirty s2 = false
          ∧ updates (controls s2) = updates (controls s)
          ∧ animationFrames s2 = animationFrames s
          ∧ the_robot s2 = the_robot s
          ∧ plane_position_y s2
            = plane_position_y (if framed then _updateEnvironment s else s)
          ∧ controls s2 = seen)
    as (Hsz2 & Hca2 & Hr2 & Hd2 & Hu2 & Hf2 & Hm2 & Hpl2 & Hc2).
  { unfold s2, seen, framed, drawn in *.
    destruct (_dirty s), resized, (autoRedraw (host s)),
      (noAutoRecenter (host s)); cbn [orb andb negb] in *;
      rewrite ?Hsz', ?Hca', ?Hr', ?Hd', ?Hu', ?Hf', ?Hm', ?Hpl', ?Hc',
        ?Hsz, ?Hca, ?Hr, ?Hu, ?Hf, ?Hm, ?Hpl, ?Hc;
      repeat split; try done;
      first [ apply reframed_plane; [done | by (left + right)]
            | apply reframed_controls; [done | by (left + right)] ]. }
  destruct (controls_update_call_frame s2) as (_ & -> & -> & -> & -> & ->).
  destruct (controls_update_call_framing s2) as (-> & ->).
  rewrite Hsz2, Hca2, Hr2, Hd2, Hu2, Hf2, Hc2. fold changed.
  repeat split; try done.
  destruct changed; [|by rewrite orb_false_r].
  rewrite orb_true_r. apply reframed_plane; [done|].
  rewrite Hpl2. destruct framed; by (left + right).
Qed.

End RenderLoopFacts.

Lemma render_loop_tick_witness :
  renders (renderLoop (set__dirty true Sample.with_arm))
  = S (renders Sample.with_arm)
  ∧ _dirty (renderLoop (set__dirty true Sample.with_arm)) = false
  ∧ updates (controls (renderLoop (set__dirty true Sample.with_arm)))
    = S (updates (controls Sample.with_arm)).
Proof.
  destruct (render_loop_tick (set__dirty true Sample.with_arm))
    as (_ & _ & H3 & H4 & H5 & _); [reflexivity|].
  split; [exact H3|]. split; [exact H4 | exact H5].
Defined.

(** ** Joints: claims C6 and C9 *)

Section JointFacts.

Context {V : Type} `{!Collaborators V}.

Lemma deref_at_ref (p : Ref) (f : Object3D V → Object3D V) (o : Object3D V) :
  deref p (at_ref p f o) = f <$> deref p o.
Proof.
  revert o. induction p as [|i p IH]; intros [c cs]; simpl; [done|].
  rewrite list_lookup_alter_eq. destruct (cs !! i) as [x|]; simpl; [apply IH|done].
Qed.

Lemma joint_at_write (p : Ref) (j j' : URDFJoint V) (o : Object3D V) :
  joint_at p o = Some j →
  joint_at p (at_ref p (write_joint j') o) = Some j'.
Proof.
  unfold joint_at. rewrite deref_at_ref.
  destruct (deref p o) as [[c cs]|]; simpl; [done|discriminate].
Qed.




Lemma joints_get_own (r : URDFRobot V) (jointName : string) (p : Ref) :
  joints r !! jointName = Some p → joints_get r jointName = property_object p.
Proof. unfold joints_get. by intros ->. Qed.

Lemma joints_get_other (r : URDFRobot V) (jointName : string) :
  joints r !! jointName = None →
  joints_get r jointName
  = if inherited_name jointName then property_inherited
    else property_undefined.
Proof. unfold joints_get. by intros ->. Qed.

(** X26. What holds of [setJointValue] for every name. It returns the viewer
    unchanged without a model, and with a model for a name that neither
    the joint table holds nor [Object.prototype]; for a name the table
    does not hold and [Object.prototype] does it throws, the viewer
    unchanged. For a joint of the table it hands the values to the joint
    and returns; when the joint reports a change the dirty flag is set and
    one [angle-change] event with the joint name is dispatched, and when
    it reports none the flag and the events stay as they were. For a name
    of the table that leads to no joint object it throws. *)
Theorem setJointValue_effects (s : Viewer V) (jointName : string)
    (values : list V) :
  (robot s = None → setJointValue jointName values s = (s, Returned))
  ∧ (∀ r, the_robot s = Some r → joints r !! jointName = None →
       setJointValue jointName values s
       = (s, if inherited_name jointName then Threw else Returned))
  ∧ (∀ r p, the_robot s = Some r → joints r !! jointName = Some p →
       joint_at p (scene r) = None →
       setJointValue jointName values s = (s, Threw))
  ∧ (∀ r p j,
       the_robot s = Some r →
       joints r !! jointName = Some p →
       joint_at p (scene r) = Some j →
       (setJointValue jointName values s).2 = Returned
       ∧ robot_joint p (setJointValue jointName values s).1
         = Some (joint_setJointValue j values).1
       ∧ if (joint_setJointValue j values).2
         then _dirty (setJointValue jointName values s).1 = true
              ∧ events (setJointValue jointName values s).1
                = events s ++ [angle_change jointName]
         else _dirty (setJointValue jointName values s).1 = _dirty s
              ∧ events (setJointValue jointName values s).1 = events s).
Proof.
  split; [|split; [|split]].
  - intros Hr. unfold setJointValue. by rewrite (the_robot_None _ Hr).
  - intros r Hr Hj. unfold setJointValue.
    rewrite Hr, (joints_get_other _ _ Hj).
    by destruct (inherited_name jointName).
  - intros r p Hr Hj Hp. unfold setJointValue.
    by rewrite Hr, (joints_get_own _ _ _ Hj), Hp.
  - intros r p j Hr Hj Hp. unfold setJointValue, robot_joint.
    rewrite Hr, (joints_get_own _ _ _ Hj), Hp. cbn [fst snd].
    split; [done|].
    set (res := joint_setJointValue j values).
    assert (the_robot (update_robot (at_ref p (write_joint res.1)) s)
            = Some (set_scene (at_ref p (write_joint res.1) (scene r)) r))
      as Hu by (by rewrite the_robot_update_robot, Hr).
    assert (_dirty (update_robot (at_ref p (write_joint res.1)) s) = _dirty s
            ∧ events (update_robot (at_ref p (write_joint res.1)) s) = events s)
      as [Hd He].
    { unfold update_robot. by destruct (robot s). }
    destruct res.2.
    + split; [|split].
      * change (the_robot (dispatchEvent (angle_change jointName)
                             (redraw (update_robot (at_ref p (write_joint res.1)) s))))
          with (the_robot (update_robot (at_ref p (write_joint res.1)) s)).
        rewrite Hu. simpl. by apply joint_at_write with j.
      * done.
      * simpl. by rewrite He.
    + split; [|done]. rewrite Hu. simpl. by apply joint_at_write with j.
Qed.

End JointFacts.

Lemma setJointValue_effects_witness :
  _dirty (setJointValue "elbow" [0.75%float] Sample.with_arm).1 = true
  ∧ events (setJointValue "elbow" [0.75%float] Sample.with_arm).1
    = events Sample.with_arm ++ [angle_change "elbow"].
Proof.
  destruct (setJointValue_effects Sample.with_arm "elbow" [0.75%float])
    as (_ & _ & _ & H).
  destruct (H Sample.arm_robot [2] Sample.elbow) as (_ & _ & H');
    try reflexivity.
  exact H'.
Defined.

(** With the joint class after the specification, a second call with the
    same value reports no change: one event, not two. *)
Example setJointValue_repeat :
  events (setJointValue "elbow" [0.75%float]
            (setJointValue "elbow" [0.75%float] Sample.with_arm).1).1
  = events Sample.with_arm ++ [angle_change "elbow"].
Proof. by vm_compute. Qed.

(** C6, at a failing call. The arm is mounted and its joint table holds
    [elbow] only. [toString] is no joint, yet [robot.joints["toString"]]
    is the function every object inherits, so the guard lets it pass and
    the call of its [setJointValue] throws: the call is no silent no-op.
    In [setJointValues] the throw ends the loop, and the value for
    [elbow] that follows is never applied, while alone it is. *)
Theorem setJointValue_inherited_name_throws :
  joints <$> the_robot Sample.with_arm = Some {[ "elbow"%string := [2] ]}
  ∧ setJointValue "toString" [0.75%float] Sample.with_arm
    = (Sample.with_arm, Threw)
  ∧ setJointValues [("toString"%string, 0.75%float);
                    ("elbow"%string, 0.75%float)] Sample.with_arm
    = (Sample.with_arm, Threw)
  ∧ events (setJointValues [("elbow"%string, 0.75%float)] Sample.with_arm).1
    = events Sample.with_arm ++ [angle_change "elbow"].
Proof. by vm_compute. Qed.

Section IgnoreLimitsToggle.

Context {V : Type}.

Variable clampV : Limit → V → V.

Variable eqbV : V → V → bool.

Variable update : OrbitControls → THREE.Vector3 * bool.

#[local] Instance toggle_collaborators : Collaborators V :=
  spec_collaborators clampV eqbV update.

(** Every call of the joint class with a value leaves the joint
    realising it. *)
Lemma spec_setJointValue_realised (j : URDFJoint V) (v : V)
    (values : list V) :
  realised clampV (spec_setJointValue clampV eqbV j (v :: values)).1.
Proof. reflexivity. Qed.


End IgnoreLimitsToggle.




(** A value beyond the limits is not restored: the joint class clamps it
    when limits are enforced again. *)
Example ignoreLimits_toggle_beyond_limits :
  let j := {| jointValue := 2%float; ignoreLimits := true;
              limit := {| lower := (-1)%float; upper := 1%float |};
              pose := 2%float |} in
  pose (reapply_joint false (reapply_joint true j)) = 1%float.
Proof. reflexivity. Qed.

(** ** Loading: claims C2 and C1 *)

Section LoadFacts.

Context {V : Type} `{!Collaborators V}.

Lemma same_load_refl (s : Viewer V) : same_load s s.
Proof. by repeat split. Qed.

Lemma same_load_trans (s1 s2 s3 : Viewer V) :
  same_load s1 s2 → same_load s2 s3 → same_load s1 s3.
Proof. unfold same_load. intuition congruence. Qed.

Lemma same_load_updateEnvironment (s : Viewer V) :
  same_load s (_updateEnvironment s).
Proof. pose proof (_updateEnvironment_frame s). unfold same_load. tauto. Qed.

Lemma same_load_recenter (s : Viewer V) : same_load s (recenter s).
Proof. pose proof (recenter_frame s). unfold same_load. tauto. Qed.

Lemma same_load_updateSize (s : Viewer V) : same_load s (updateSize s).
Proof.
  unfold updateSize. destruct (size_differs s).
  - apply (same_load_trans _ (recenter s)); [apply same_load_recenter|].
    by repeat split.
  - by repeat split.
Qed.

Lemma same_load_draw (s : Viewer V) : same_load s (draw s).
Proof.
  unfold draw. destruct (noAutoRecenter (host s)); [by repeat split|].
  apply (same_load_trans _ (_updateEnvironment s));
    [apply same_load_updateEnvironment | by repeat split].
Qed.

Lemma same_load_controls_update_call (s : Viewer V) :
  same_load s (controls_update_call s).
Proof.
  unfold controls_update_call. destruct (controls_update (controls s)).2.
  - eapply same_load_trans; [|apply same_load_recenter]. by repeat split.
  - by repeat split.
Qed.

Lemma same_load_tick (s : Viewer V) : same_load s (tick s).
Proof.
  unfold tick.
  eapply same_load_trans; [|apply same_load_controls_update_call].
  destruct (_ || _).
  - eapply same_load_trans; [apply same_load_updateSize | apply same_load_draw].
  - apply same_load_updateSize.
Qed.

Lemma same_load_renderLoop (s : Viewer V) : same_load s (renderLoop s).
Proof.
  unfold renderLoop. destruct (parentNode (host s)).
  - eapply same_load_trans; [apply same_load_tick | by repeat split].
  - by repeat split.
Qed.

Lemma animationFrames_tick (s : Viewer V) :
  animationFrames (tick s) = animationFrames s.
Proof.
  unfold tick.
  destruct (controls_update_call_frame
              (if _dirty (updateSize s) || autoRedraw (host (updateSize s))
               then draw (updateSize s) else updateSize s))
    as (_ & _ & _ & _ & _ & ->).
  destruct (updateSize_frame s) as (_ & _ & _ & _ & _ & Hf).
  destruct (draw_frame (updateSize s)) as (_ & _ & _ & _ & _ & Hf').
  destruct (_ || _); congruence.
Qed.

Lemma pending_loads_renderLoop (s : Viewer V) :
  pending_loads (renderLoop s) = pending_loads s.
Proof.
  unfold pending_loads, renderLoop, requestAnimationFrame. simpl.
  rewrite List.filter_app, length_app. simpl.
  destruct (parentNode (host s)); rewrite ?animationFrames_tick; lia.
Qed.

Lemma started_imports_same_load (s s' : Viewer V) :
  same_load s s' → started_imports s' = started_imports s.
Proof.
  intros (Hh & Hi & _). unfold started_imports, urdf, package.
  by rewrite Hh, Hi.
Qed.

(** The deferred load: the request counter grows for a locator that is
    not empty, the imports grow by [started_imports], the schedule flag is
    cleared. *)
Lemma run_FrameLoad (s : Viewer V) :
  host (run_callback s FrameLoad) = host s
  ∧ imports (run_callback s FrameLoad) = imports s ++ started_imports s
  ∧ _requestId (run_callback s FrameLoad)
    = (if JsString.truthy (urdf s) then S (_requestId s) else _requestId s)
  ∧ _loadScheduled (run_callback s FrameLoad) = false
  ∧ animationFrames (run_callback s FrameLoad) = animationFrames s
  ∧ events (run_callback s FrameLoad) = events s ++ [urdf_change].
Proof.
  unfold run_callback, _loadUrdf, started_imports.
  destruct (JsString.truthy (urdf s)); simpl.
  - destruct (parsePackages (package s)); simpl; by rewrite ?app_nil_r.
  - by rewrite app_nil_r.
Qed.

(** A frame without a deferred load leaves the orchestrator alone. *)
Lemma callbacks_without_load (cbs : list FrameCallback) (s : Viewer V) :
  List.filter is_FrameLoad cbs = [] →
  same_load s (fold_left run_callback cbs s)
  ∧ pending_loads (fold_left run_callback cbs s) = pending_loads s.
Proof.
  revert s. induction cbs as [|cb cbs IH]; intros s Hc.
  - split; [apply same_load_refl | done].
  - destruct cb; simpl in Hc; [|discriminate].
    change (fold_left run_callback (FrameRenderLoop :: cbs) s)
      with (fold_left run_callback cbs (renderLoop s)).
    destruct (IH (renderLoop s) Hc) as [Hs Hp]. split.
    + eapply same_load_trans; [apply same_load_renderLoop | exact Hs].
    + by rewrite Hp, pending_loads_renderLoop.
Qed.

(** A frame with one deferred load starts its imports once. *)
Lemma callbacks_with_one_load (cbs : list FrameCallback) (s : Viewer V) :
  length (List.filter is_FrameLoad cbs) = 1 →
  imports (fold_left run_callback cbs s) = imports s ++ started_imports s
  ∧ _loadScheduled (fold_left run_callback cbs s) = false
  ∧ pending_loads (fold_left run_callback cbs s) = pending_loads s.
Proof.
  revert s. induction cbs as [|cb cbs IH]; intros s Hc; [simpl in Hc; lia|].
  destruct cb; simpl in Hc.
  - change (fold_left run_callback (FrameRenderLoop :: cbs) s)
      with (fold_left run_callback cbs (renderLoop s)).
    destruct (IH (renderLoop s) Hc) as (Hi & Hl & Hp).
    destruct (same_load_renderLoop s) as (_ & _ & _ & _ & _ & _ & _ & Him).
    rewrite Hi, Hl, Hp, Him, pending_loads_renderLoop.
    by rewrite (started_imports_same_load _ _ (same_load_renderLoop s)).
  - change (fold_left run_callback (FrameLoad :: cbs) s)
      with (fold_left run_callback cbs (run_callback s FrameLoad)).
    assert (List.filter is_FrameLoad cbs = []) as Hnil.
    { destruct (List.filter is_FrameLoad cbs); [done | simpl in Hc; lia]. }
    destruct (callbacks_without_load cbs (run_callback s FrameLoad) Hnil)
      as ((_ & _ & Hl & _ & _ & _ & _ & Hi) & Hp).
    destruct (run_FrameLoad s) as (_ & Hi' & _ & Hl' & Hf & _).
    rewrite Hi, Hl, Hp, Hi', Hl'. unfold pending_loads. by rewrite Hf.
Qed.

Lemma update_robot_frame (f : Object3D V → Object3D V) (s : Viewer V) :
  animationFrames (update_robot f s) = animationFrames s
  ∧ _loadScheduled (update_robot f s) = _loadScheduled s
  ∧ imports (update_robot f s) = imports s
  ∧ robot (update_robot f s) = robot s
  ∧ world (update_robot f s) = world s
  ∧ _requestId (update_robot f s) = _requestId s
  ∧ _prevload (update_robot f s) = _prevload s
  ∧ host (update_robot f s) = host s
  ∧ events (update_robot f s) = events s
  ∧ _dirty (update_robot f s) = _dirty s.
Proof. unfold update_robot. by destruct (robot s) eqn:E. Qed.

Lemma scheduleLoad_pending (pkg loc : option string) (s : Viewer V) :
  pending_loads s = (if _loadScheduled s then 1 else 0) →
  pending_loads (scheduleLoad pkg loc s)
  = (if _loadScheduled (scheduleLoad pkg loc s) then 1 else 0)
  ∧ imports (scheduleLoad pkg loc s) = imports s.
Proof.
  intros Hinv. unfold scheduleLoad, _scheduleLoad.
  set (s0 := set_host (set_locators pkg loc (host s)) s).
  destruct (decide (_prevload s0 = Some (load_key s0))) as [E|E]; [done|].
  change (_loadScheduled (set__prevload (Some (load_key s0)) s0))
    with (_loadScheduled s).
  destruct (_loadScheduled s) eqn:El.
  - unfold pending_loads in *. simpl. by rewrite El.
  - unfold detach_robot, requestAnimationFrame, pending_loads in *.
    set (s1 := set__loadScheduled true (set__prevload (Some (load_key s0)) s0)).
    destruct (update_robot_frame dispose_all s1) as (Hf & Hl & Hi & _).
    destruct (robot s1); simpl;
      rewrite ?Hf, ?Hl, ?Hi; simpl;
      rewrite List.filter_app, length_app, Hinv; done.
Qed.

Lemma scheduleLoads_pending (calls : list (option string * option string))
    (s : Viewer V) :
  pending_loads s = (if _loadScheduled s then 1 else 0) →
  pending_loads (scheduleLoads calls s)
  = (if _loadScheduled (scheduleLoads calls s) then 1 else 0)
  ∧ imports (scheduleLoads calls s) = imports s.
Proof.
  revert s. induction calls as [|[pkg loc] calls IH]; intros s Hinv; [done|].
  destruct (scheduleLoad_pending pkg loc s Hinv) as [Hp Hi].
  destruct (IH _ Hp) as [Hp' Hi']. simpl. by rewrite Hp', Hi'.
Qed.

End LoadFacts.

Section LoadClaims.

Context {V : Type} `{!Collaborators V}.

Lemma set_host_host (s : Viewer V) : set_host (host s) s = s.
Proof. by destruct s. Qed.

Lemma _scheduleLoad_host (s : Viewer V) : host (_scheduleLoad s) = host s.
Proof.
  unfold _scheduleLoad. destruct (decide _); [done|].
  simpl. destruct (_loadScheduled s); [done|].
  unfold requestAnimationFrame, detach_robot. simpl.
  destruct (update_robot_frame dispose_all
              (set__loadScheduled true (set__prevload (Some (load_key s)) s)))
    as (_ & _ & _ & _ & _ & _ & _ & Hh & _).
  destruct (robot s); simpl; by rewrite ?Hh.
Qed.

Lemma _scheduleLoad_prevload (s : Viewer V) :
  _prevload (_scheduleLoad s) = Some (load_key s).
Proof.
  unfold _scheduleLoad. destruct (decide _) as [E|E]; [done|].
  simpl. destruct (_loadScheduled s); [done|].
  unfold requestAnimationFrame, detach_robot. simpl.
  destruct (update_robot_frame dispose_all
              (set__loadScheduled true (set__prevload (Some (load_key s)) s)))
    as (_ & _ & _ & _ & _ & _ & Hp & _).
  destruct (robot s); simpl; by rewrite ?Hp.
Qed.

Lemma _scheduleLoad_unchanged (s : Viewer V) :
  _prevload s = Some (load_key s) → _scheduleLoad s = s.
Proof. intros E. unfold _scheduleLoad. by destruct (decide _). Qed.

Lemma scheduleLoad_idempotent (pkg loc : option string) (s : Viewer V) :
  scheduleLoad pkg loc (scheduleLoad pkg loc s) = scheduleLoad pkg loc s.
Proof.
  unfold scheduleLoad at 1.
  set (s' := scheduleLoad pkg loc s).
  assert (host s' = set_locators pkg loc (host s)) as Hh
    by apply _scheduleLoad_host.
  assert (set_locators pkg loc (host s') = host s') as -> by (by rewrite Hh).
  rewrite set_host_host. apply _scheduleLoad_unchanged.
  unfold s', scheduleLoad. rewrite _scheduleLoad_prevload.
  unfold load_key, package, urdf. by rewrite _scheduleLoad_host.
Qed.

Lemma not_in_world_remove (k : nat) (s : Viewer V) :
  k ∉ world (world_remove k s).
Proof.
  unfold world_remove. simpl. rewrite list_elem_of_In, filter_In.
  intros [_ H]. by rewrite Nat.eqb_refl in H.
Qed.

(** C2, amended. [scheduleLoad] returns the viewer unchanged when the
    key of the two attributes is the one recorded by the last call, so a
    repeated call with the same pair does nothing more. For another key,
    with no load scheduled, it records the key, disposes and detaches the
    mounted model if there is one, and requests the deferred load for the
    next frame without starting an import; with a load already scheduled
    it only records the key. After any number of calls from a state
    without a scheduled load, at most one deferred load waits; the frame
    runs it once, and it starts one import when the locator is not empty
    and the package string parses, and none otherwise. *)
Theorem scheduleLoad_contract (s : Viewer V) :
  (_prevload s = Some (load_key s) → _scheduleLoad s = s)
  ∧ (∀ pkg loc,
        scheduleLoad pkg loc (scheduleLoad pkg loc s) = scheduleLoad pkg loc s)
  ∧ (_prevload s ≠ Some (load_key s) → _loadScheduled s = false →
     robot (_scheduleLoad s) = None
     ∧ (∀ k, robot s = Some k →
             (k ∉ world (_scheduleLoad s))
             ∧ heap (_scheduleLoad s) !! k
               = (λ r, set_scene (dispose_all (scene r)) r) <$> heap s !! k)
     ∧ _prevload (_scheduleLoad s) = Some (load_key s)
     ∧ _loadScheduled (_scheduleLoad s) = true
     ∧ animationFrames (_scheduleLoad s) = animationFrames s ++ [FrameLoad]
     ∧ imports (_scheduleLoad s) = imports s
     ∧ _requestId (_scheduleLoad s) = _requestId s)
  ∧ (_prevload s ≠ Some (load_key s) → _loadScheduled s = true →
     _scheduleLoad s = set__prevload (Some (load_key s)) s)
  ∧ (_loadScheduled s = false → pending_loads s = 0 →
     ∀ calls,
       pending_loads (scheduleLoads calls s)
       = (if _loadScheduled (scheduleLoads calls s) then 1 else 0)
       ∧ imports (scheduleLoads calls s) = imports s
       ∧ imports (animationFrame (scheduleLoads calls s))
         = imports s
           ++ (if _loadScheduled (scheduleLoads calls s)
               then started_imports (scheduleLoads calls s) else [])
       ∧ _loadScheduled (animationFrame (scheduleLoads calls s)) = false).
Proof.
  split; [apply _scheduleLoad_unchanged|].
  split; [intros; apply scheduleLoad_idempotent|].
  split; [|split].
  - intros E El. unfold _scheduleLoad. destruct (decide _); [done|].
    simpl. rewrite El. unfold requestAnimationFrame, detach_robot.
    set (s1 := set__loadScheduled true (set__prevload (Some (load_key s)) s)).
    change (robot s1) with (robot s).
    destruct (update_robot_frame dispose_all s1)
      as (Hf & Hl & Hi & Hr & Hw & Hq & Hp & _).
    destruct (robot s) as [k|] eqn:Er; simpl.
    + rewrite Hf, Hl, Hi, Hq, Hp. repeat split; try done.
      * injection H as <-. apply (not_in_world_remove k (update_robot dispose_all s1)).
      * injection H as <-. unfold update_robot.
        change (robot s1) with (robot s). rewrite Er. simpl.
        apply lookup_alter_eq.
    + repeat split; done.
  - intros E El. unfold _scheduleLoad. destruct (decide _); [done|].
    simpl. by rewrite El.
  - intros El Hp calls.
    assert (pending_loads s = (if _loadScheduled s then 1 else 0)) as Hinv
      by (by rewrite El).
    destruct (scheduleLoads_pending calls s Hinv) as [Hp' Hi'].
    split; [exact Hp'|]. split; [exact Hi'|].
    set (t := scheduleLoads calls s) in *.
    unfold animationFrame.
    destruct (_loadScheduled t) eqn:Et.
    + destruct (callbacks_with_one_load (animationFrames t)
                  (set_animationFrames [] t) Hp') as (Hi & Hl & _).
      rewrite Hi, Hl. simpl. by rewrite Hi'.
    + assert (List.filter is_FrameLoad (animationFrames t) = []) as Hnil.
      { unfold pending_loads in Hp'.
        by destruct (List.filter is_FrameLoad (animationFrames t)). }
      destruct (callbacks_without_load (animationFrames t)
                  (set_animationFrames [] t) Hnil)
        as ((_ & _ & Hl & _ & _ & _ & _ & Hi) & _).
      rewrite Hi, Hl. simpl. by rewrite Hi', Et, app_nil_r.
Qed.

(** [manager.onLoad] of a request that is no longer the current one
    disposes its model and leaves the mounted model and the world's
    children as they are. *)
Lemma manager_onLoad_stale (k : nat) (s : Viewer V) (r : URDFRobot V) :
  _requestId s ≠ k →
  heap s !! k = Some r →
  manager_onLoad k s
  = (set_heap (<[k := set_scene (dispose_all (scene r)) r]> (heap s)) s,
     Returned).
Proof.
  intros Hk Hr. unfold manager_onLoad.
  apply Nat.eqb_neq in Hk. by rewrite Hk, Hr.
Qed.

End LoadClaims.

Lemma scheduleLoad_contract_witness :
  pending_loads
    (scheduleLoads [(None, Some "a.urdf"%string); (None, Some "b.urdf"%string)]
       Sample.idle) = 1
  ∧ imports
      (animationFrame
         (scheduleLoads
            [(None, Some "a.urdf"%string); (None, Some "b.urdf"%string)]
            Sample.idle))
    = [{| import_id := 1; import_urdf := "b.urdf";
          import_packages := PkgPath "" |}].
Proof.
  destruct (scheduleLoad_contract Sample.idle) as (_ & _ & _ & _ & H).
  destruct (H eq_refl eq_refl
              [(None, Some "a.urdf"%string); (None, Some "b.urdf"%string)])
    as (H1 & _ & H3 & _).
  split; [exact H1 | exact H3].
Defined.

(** A call that changes the package string and leaves the locator empty
    defers a load, and the frame that runs it imports nothing. *)
Lemma scheduleLoad_without_locator_imports_nothing :
  _prevload Sample.idle
  ≠ Some (load_key
            (set_host (set_locators (Some "/models"%string) None
                         (host Sample.idle)) Sample.idle))
  ∧ pending_loads (scheduleLoad (Some "/models"%string) None Sample.idle) = 1
  ∧ imports
      (animationFrame (scheduleLoad (Some "/models"%string) None Sample.idle))
    = [].
Proof. split; [discriminate|]. by vm_compute. Qed.

(** C1, at a failing schedule. Two loads are requested, [a.urdf] and
    then [b.urdf], and each gets its frame, so the request counter is 2.
    When the importer then hands the model of the first request to the
    callback of [loader.load], that callback makes it [this.robot] and a
    child of the world although its request id is 1. [manager.onLoad] of
    the first request then disposes the model and leaves it mounted, and
    the model of the second request is later mounted next to it. *)
Theorem superseded_model_is_mounted :
  _requestId (run Sample.superseded Sample.idle) = 2
  ∧ import_urdf <$> imports (run Sample.superseded Sample.idle)
    = ["a.urdf"%string; "b.urdf"%string]
  ∧ robot (run Sample.superseded Sample.idle) = Some 1
  ∧ world (run Sample.superseded Sample.idle) = [1]
  ∧ robot (run (Sample.superseded ++ [ManagerLoaded 1]) Sample.idle) = Some 1
  ∧ world (run (Sample.superseded ++ [ManagerLoaded 1]) Sample.idle) = [1]
  ∧ world (run (Sample.superseded
                ++ [ManagerLoaded 1; Loaded 2 Sample.bare_robot])
             Sample.idle) = [1; 2].
Proof. by vm_compute. Qed.

Section LoadCallback.

Context {V : Type} `{!Collaborators V}.

Lemma after_mount_mounted (s : Viewer V) :
  robot (after_mount s) = robot s ∧ world (after_mount s) = world s.
Proof.
  unfold after_mount, dispatchEvent.
  match goal with |- context [recenter ?t] =>
    destruct (recenter_frame t) as (_ & _ & _ & _ & _ & -> & _ & -> & _)
  end.
  simpl. unfold _updateCollisionVisibility.
  set (s1 := _setIgnoreLimits (ignoreLimits_attr s) false s).
  assert (robot s1 = robot s ∧ world s1 = world s) as [Hr Hw].
  { unfold s1, _setIgnoreLimits. destruct (the_robot s); [|done].
    match goal with |- context [recenter ?t] =>
      destruct (recenter_frame t) as (_ & _ & _ & _ & _ & -> & _ & -> & _)
    end.
    destruct (update_robot_frame
                (traverse (ignoreLimits_callback (ignoreLimits_attr s))) s)
      as (_ & _ & _ & -> & -> & _). done. }
  destruct (the_robot s1); [|done].
  destruct (update_robot_frame
              (updateCollisionVisibility_walk (showCollision s1)) s1)
    as (_ & _ & _ & -> & -> & _). done.
Qed.

(** The callback of [loader.load] mounts the model it is given whatever
    the request counter is, as soon as [updateMaterials] meets no mesh. *)
Lemma load_callback_mounts (k : nat) (model : URDFRobot V) (s : Viewer V) :
  (updateMaterials (scene model)).2 = false →
  robot (load_callback k model s).1 = Some k
  ∧ k ∈ world (load_callback k model s).1.
Proof.
  intros Hm. unfold load_callback, updateMaterials_of. cbv zeta.
  cbn [heap set_heap]. rewrite lookup_insert_eq. cbn [fst snd].
  rewrite Hm. cbn [fst snd].
  match goal with |- context [after_mount ?t] =>
    destruct (after_mount_mounted t) as [-> ->]
  end.
  split; [done|]. unfold world_add. simpl.
  apply elem_of_app. right. by apply list_elem_of_singleton.
Qed.

End LoadCallback.

(** * Further properties of the code *)

(** ** The up axis *)

Lemma list_ascii_of_string_app (s1 s2 : string) :
  list_ascii_of_string (String.append s1 s2)
  = list_ascii_of_string s1 ++ list_ascii_of_string s2.
Proof. induction s1 as [|a s1 IH]; simpl; [done|]. by rewrite IH. Qed.

Lemma toUpperCase_app (s1 s2 : string) :
  toUpperCase (String.append s1 s2) = toUpperCase s1 ++ toUpperCase s2.
Proof.
  unfold toUpperCase. by rewrite list_ascii_of_string_app, flat_map_app.
Qed.

Lemma toUpperCase_String (a : ascii) (s : string) :
  toUpperCase (String a s) = upper_units a ++ toUpperCase s.
Proof. reflexivity. Qed.

(** What [toUpperCase] makes of a character never holds a small [x], [y]
    or [z], and holds no sign or axis letter at all unless the character
    is one [_setUp] looks at. *)
Lemma upper_units_axis (a : ascii) :
  forallb (λ u, negb (is_axis_unit u) || ((88 <=? u) && (u <=? 90))%N)
    (upper_units a) = true.
Proof. destruct a as [[] [] [] [] [] [] [] []]; reflexivity. Qed.

Lemma upper_units_noise (a : ascii) :
  is_up_character a = false →
  List.filter is_sign_unit (upper_units a) = []
  ∧ List.filter is_axis_unit (upper_units a) = [].
Proof.
  destruct a as [[] [] [] [] [] [] [] []]; intros H;
    first [discriminate H | split; reflexivity].
Qed.

Lemma upper_units_capital (a : ascii) :
  upper_units (capital a) = upper_units a.
Proof. destruct a as [[] [] [] [] [] [] [] []]; reflexivity. Qed.

Lemma axis_units_capital (up : string) :
  Forall (λ u, u = 88%N ∨ u = 89%N ∨ u = 90%N)
    (List.filter is_axis_unit (toUpperCase up)).
Proof.
  induction up as [|a up IH]; [constructor|].
  rewrite toUpperCase_String, List.filter_app. apply Forall_app. split; [|exact IH].
  pose proof (upper_units_axis a) as H. rewrite forallb_forall in H.
  apply Forall_forall. intros u Hu. apply list_elem_of_In, filter_In in Hu.
  destruct Hu as [Hin Hax]. specialize (H u Hin). rewrite Hax in H. simpl in H.
  apply andb_true_iff in H as [H1 H2].
  apply N.leb_le in H1, H2. lia.
Qed.

(** X1. Whatever the string and whatever the rotation was before, the
    rotation [_setUp] leaves is the one of a signed axis: one of six, and
    nothing of the previous rotation survives. *)
Theorem _setUp_determined (up : string) :
  ∃ (positive : bool) (axis : Axis),
    ∀ rotation : Euler, _setUp up rotation = up_rotation positive axis.
Proof.
  unfold _setUp.
  set (units := toUpperCase (if JsString.truthy up then up else "+Z"%string)).
  set (sign := hd 43%N (List.filter is_sign_unit units)).
  assert (hd 90%N (List.filter is_axis_unit units) = 88%N
          ∨ hd 90%N (List.filter is_axis_unit units) = 89%N
          ∨ hd 90%N (List.filter is_axis_unit units) = 90%N) as Hax.
  { pose proof (axis_units_capital
                  (if JsString.truthy up then up else "+Z"%string)) as H.
    fold units in H. destruct (List.filter is_axis_unit units) as [|u us].
    - right. right. reflexivity.
    - apply Forall_cons in H as [H _]. exact H. }
  exists (sign =? 43)%N.
  destruct Hax as [-> | [-> | ->]].
  - exists axis_X. intros r. reflexivity.
  - exists axis_Y. intros r. reflexivity.
  - exists axis_Z. intros r. reflexivity.
Qed.

Lemma _setUp_units (up up' : string) (rotation : Euler) :
  hd 43%N (List.filter is_sign_unit
             (toUpperCase (if JsString.truthy up then up else "+Z"%string)))
  = hd 43%N (List.filter is_sign_unit
               (toUpperCase (if JsString.truthy up' then up' else "+Z"%string))) →
  hd 90%N (List.filter is_axis_unit
             (toUpperCase (if JsString.truthy up then up else "+Z"%string)))
  = hd 90%N (List.filter is_axis_unit
               (toUpperCase (if JsString.truthy up' then up' else "+Z"%string))) →
  _setUp up rotation = _setUp up' rotation.
Proof. intros Hs Ha. unfold _setUp. by rewrite Hs, Ha. Qed.

(** X2. Among the strings of code units below 256, a character that is
    none of [+ - x y z X Y Z] has no say: with it or without it at any
    place of the string, [_setUp] leaves the same rotation. *)
Theorem _setUp_ignores_other_characters (s1 s2 : string) (c : ascii)
    (rotation : Euler) :
  is_up_character c = false →
  _setUp (String.append s1 (String c s2)) rotation
  = _setUp (String.append s1 s2) rotation.
Proof.
  intros Hc. destruct (upper_units_noise c Hc) as [Hs Ha].
  assert (JsString.truthy (String.append s1 (String c s2)) = true) as Ht
    by (by destruct s1).
  assert (List.filter is_sign_unit (toUpperCase (String.append s1 (String c s2)))
          = List.filter is_sign_unit (toUpperCase (String.append s1 s2))) as Es.
  { rewrite !toUpperCase_app, toUpperCase_String, !List.filter_app, Hs. done. }
  assert (List.filter is_axis_unit (toUpperCase (String.append s1 (String c s2)))
          = List.filter is_axis_unit (toUpperCase (String.append s1 s2))) as Ea.
  { rewrite !toUpperCase_app, toUpperCase_String, !List.filter_app, Ha. done. }
  apply _setUp_units; rewrite Ht.
  - rewrite Es. by destruct (String.append s1 s2).
  - rewrite Ea. by destruct (String.append s1 s2).
Qed.

Lemma _setUp_ignores_other_characters_witness :
  _setUp "-?y" {| euler_x := 1; euler_y := 1; euler_z := 1 |}
  = _setUp "-y" {| euler_x := 1; euler_y := 1; euler_z := 1 |}.
Proof.
  apply (_setUp_ignores_other_characters "-" "y" "?"). reflexivity.
Defined.

Lemma toUpperCase_capitals (up : string) :
  toUpperCase (capitals up) = toUpperCase up.
Proof.
  induction up as [|a up IH]; [done|].
  change (capitals (String a up)) with (String (capital a) (capitals up)).
  by rewrite !toUpperCase_String, IH, upper_units_capital.
Qed.

(** X3. The case of the letters does not matter: the string and the
    string with its letters [a] to [z] made capitals give the same
    rotation. *)
Theorem _setUp_case_insensitive (up : string) (rotation : Euler) :
  _setUp (capitals up) rotation = _setUp up rotation.
Proof.
  assert (JsString.truthy (capitals up) = JsString.truthy up) as Ht
    by (by destruct up).
  apply _setUp_units; rewrite Ht; destruct (JsString.truthy up);
    by rewrite ?toUpperCase_capitals.
Qed.

(** ** Package strings *)

Section PackageErrors.

Import JsString.

Lemma package_entry_None (map : gmap string string) (value : string) :
  package_entry map value = None ↔ only_colons value = true.
Proof.
  rewrite <- split_all_empty. unfold package_entry.
  by destruct (List.filter truthy (split ":" value)).
Qed.

Lemma reduce_entries_None (map : gmap string string) (values : list string) :
  reduce_entries map values = None
  ↔ Exists (λ value, only_colons value = true) values.
Proof.
  revert map. induction values as [|v vs IH]; intros map; simpl.
  - split; [discriminate | by intros ?%Exists_nil].
  - rewrite Exists_cons. destruct (package_entry map v) as [map'|] eqn:E.
    + rewrite IH. split; [by right|].
      intros [Hv|Hvs]; [|done].
      apply package_entry_None with (map := map) in Hv. congruence.
    + apply package_entry_None in E. split; [by left | done].
Qed.

(** X4. The package parsing throws exactly when the string passes the
    test for a mapping and one of its comma-separated segments holds
    nothing but colons: an empty segment, as a trailing or a doubled comma
    leaves, is enough. *)
Theorem parsePackages_throws (pkg : string) :
  parsePackages pkg = None
  ↔ is_package_map pkg = true
    ∧ Exists (λ value, only_colons value = true) (split "," pkg).
Proof.
  unfold parsePackages. destruct (is_package_map pkg).
  - rewrite <- (reduce_entries_None ∅).
    destruct (reduce_entries ∅ (split "," pkg)); simpl; split; try done.
    by intros [_ ?].
  - split; [discriminate | by intros [? _]].
Qed.

Lemma trimEnd_idempotent (s : string) : trimEnd (trimEnd s) = trimEnd s.
Proof.
  induction s as [|a s IH]; [done|].
  change (trimEnd (String a s))
    with (match trimEnd s with
          | EmptyString => if is_space a then EmptyString else String a EmptyString
          | r => String a r
          end).
  destruct (trimEnd s) as [|b r] eqn:E.
  - destruct (is_space a) eqn:Ea; [done|]. simpl. by rewrite Ea.
  - change (trimEnd (String a (String b r)))
      with (match trimEnd (String b r) with
            | EmptyString =>
                if is_space a then EmptyString else String a EmptyString
            | r' => String a r'
            end).
    by rewrite IH.
Qed.

(** A string that does not begin with white space keeps its first
    character under [trimEnd]. *)
Lemma trimStart_trimEnd (a : ascii) (s : string) :
  is_space a = false →
  trimStart (trimEnd (String a s)) = trimEnd (String a s).
Proof.
  intros Ha.
  change (trimEnd (String a s))
    with (match trimEnd s with
          | EmptyString => if is_space a then EmptyString else String a EmptyString
          | r => String a r
          end).
  rewrite Ha. destruct (trimEnd s); simpl; by rewrite Ha.
Qed.

Lemma trimStart_starts (s : string) :
  trimStart s = EmptyString
  ∨ ∃ a s', trimStart s = String a s' ∧ is_space a = false.
Proof.
  induction s as [|a s IH]; [by left|]. simpl.
  destruct (is_space a) eqn:Ea; [exact IH|]. right. by exists a, s.
Qed.

Lemma trim_idempotent (s : string) : trim (trim s) = trim s.
Proof.
  unfold trim. destruct (trimStart_starts s) as [->|(a & s' & -> & Ha)]; [done|].
  by rewrite (trimStart_trimEnd a s' Ha), trimEnd_idempotent.
Qed.

Lemma package_entry_trimmed (map map' : gmap string string) (value : string) :
  trimmed_entries map →
  package_entry map value = Some map' →
  trimmed_entries map'.
Proof.
  intros Hm. unfold package_entry, obj_set.
  destruct (List.filter truthy (split ":" value)) as [|first rest]; [done|].
  intros [= <-]. destruct (String.eqb (trim first) "__proto__"); [done|].
  intros k v. rewrite lookup_insert. case_decide as E.
  - intros [= <-]. subst k. by rewrite !trim_idempotent.
  - apply Hm.
Qed.

Lemma reduce_entries_trimmed (map map' : gmap string string)
    (values : list string) :
  trimmed_entries map →
  reduce_entries map values = Some map' →
  trimmed_entries map'.
Proof.
  revert map. induction values as [|v vs IH]; intros map Hm; simpl.
  - by intros [= <-].
  - destruct (package_entry map v) as [m1|] eqn:E; [|done].
    apply IH. by apply (package_entry_trimmed map m1 v).
Qed.

(** X5. In a mapping the package parsing produces, no name and no path
    begins or ends with white space: trimming any of them changes
    nothing. *)
Theorem parsePackages_trimmed (pkg : string) (map : gmap string string)
    (name path : string) :
  parsePackages pkg = Some (PkgMap map) →
  map !! name = Some path →
  trim name = name ∧ trim path = path.
Proof.
  unfold parsePackages. destruct (is_package_map pkg); [|done].
  destruct (reduce_entries ∅ (split "," pkg)) as [m|] eqn:E; [|done].
  intros [= <-]. revert name path.
  apply (reduce_entries_trimmed ∅ m (split "," pkg)); [|exact E].
  intros k v. by rewrite lookup_empty.
Qed.

End PackageErrors.

Lemma parsePackages_trimmed_witness :
  JsString.trim "base" = "base"%string
  ∧ JsString.trim "/models/base" = "/models/base"%string.
Proof.
  apply (parsePackages_trimmed " base : /models/base , arm:/models/arm"
           {[ "base"%string := "/models/base"%string;
              "arm"%string := "/models/arm"%string ]}).
  - by vm_compute.
  - reflexivity.
Defined.

(** ** Materials and mounting *)

Section MountingFacts.

Context {V : Type} `{!Collaborators V}.

Lemma updateMaterials_unfold (c : Node V) (cs : list (Object3D V)) :
  updateMaterials (Obj c cs)
  = if isMesh c then (Obj (mesh_shadows c) cs, true)
    else (Obj c (updateMaterials_among cs).1, (updateMaterials_among cs).2).
Proof. reflexivity. Qed.

Lemma without_shadows_mesh_shadows (c : Node V) :
  without_shadows (mesh_shadows c) = without_shadows c.
Proof. by destruct c. Qed.

Lemma updateMaterials_throws_aux (o : Object3D V) :
  (updateMaterials o).2 = has_mesh o
  ∧ (has_mesh o = false → (updateMaterials o).1 = o)
  ∧ traverse without_shadows (updateMaterials o).1
    = traverse without_shadows o.
Proof.
  induction o as [c cs IH] using Object3D_children_ind.
  rewrite updateMaterials_unfold. simpl has_mesh.
  destruct (isMesh c) eqn:Hm; simpl.
  { split; [done|]. split; [done|]. by rewrite without_shadows_mesh_shadows. }
  assert ((updateMaterials_among cs).2 = existsb has_mesh cs
          ∧ (existsb has_mesh cs = false → (updateMaterials_among cs).1 = cs)
          ∧ traverse without_shadows <$> (updateMaterials_among cs).1
            = traverse without_shadows <$> cs) as (H1 & H2 & H3).
  { induction IH as [|x xs (Hx1 & Hx2 & Hx3) _ IHxs]; [done|].
    destruct IHxs as (I1 & I2 & I3).
    cbn [updateMaterials_among existsb]. cbv zeta.
    rewrite <- Hx1. destruct (updateMaterials x).2 eqn:Ex; cbn [fst snd orb].
    - split; [done|]. split; [done|]. by rewrite !fmap_cons, Hx3.
    - split; [exact I1|]. split.
      + intros E. rewrite (I2 E), Hx2; [done|]. by rewrite <- Hx1.
      + by rewrite !fmap_cons, Hx3, I3. }
  split; [exact H1|]. split.
  - intros E. by rewrite (H2 E).
  - by rewrite H3.
Qed.

(** X6. [updateMaterials] throws exactly when the model holds a mesh. A
    model without a mesh comes back as it was; in any case nothing but
    shadow flags is written: no material is ever assigned. *)
Theorem updateMaterials_throws (o : Object3D V) :
  (updateMaterials o).2 = has_mesh o
  ∧ (has_mesh o = false → (updateMaterials o).1 = o)
  ∧ traverse without_shadows (updateMaterials o).1
    = traverse without_shadows o.
Proof. apply updateMaterials_throws_aux. Qed.

Lemma same_outside_refl (s : Viewer V) : same_outside s s.
Proof. by repeat split. Qed.

Lemma same_outside_trans (s1 s2 s3 : Viewer V) :
  same_outside s1 s2 → same_outside s2 s3 → same_outside s1 s3.
Proof. unfold same_outside. intuition congruence. Qed.

Lemma same_outside_recenter (s : Viewer V) : same_outside s (recenter s).
Proof. pose proof (recenter_frame s). unfold same_outside. tauto. Qed.

Lemma same_outside_update_robot (f : Object3D V → Object3D V) (s : Viewer V) :
  same_outside s (update_robot f s).
Proof. unfold update_robot. destruct (robot s); by repeat split. Qed.

Lemma same_outside__setIgnoreLimits (ignore noRecenter : bool) (s : Viewer V) :
  same_outside s (_setIgnoreLimits ignore noRecenter s).
Proof.
  unfold _setIgnoreLimits. destruct (the_robot s); [|apply same_outside_refl].
  destruct noRecenter; [apply same_outside_update_robot|].
  eapply same_outside_trans;
    [apply same_outside_update_robot | apply same_outside_recenter].
Qed.

Lemma same_outside__updateCollisionVisibility (s : Viewer V) :
  same_outside s (_updateCollisionVisibility s).
Proof.
  unfold _updateCollisionVisibility.
  destruct (the_robot s); [apply same_outside_update_robot|].
  apply same_outside_refl.
Qed.

Lemma same_outside_after_mount (s : Viewer V) : same_outside s (after_mount s).
Proof.
  unfold after_mount.
  eapply same_outside_trans; [|apply same_outside_recenter].
  eapply same_outside_trans;
    [apply (same_outside__setIgnoreLimits (ignoreLimits_attr s) false)|].
  eapply same_outside_trans; [apply same_outside__updateCollisionVisibility|].
  by repeat split.
Qed.

Lemma events_update_robot (f : Object3D V → Object3D V) (s : Viewer V) :
  events (update_robot f s) = events s.
Proof. unfold update_robot. by destruct (robot s). Qed.

Lemma events_recenter (s : Viewer V) : events (recenter s) = events s.
Proof. by destruct (recenter_frame s) as (_&_&_&_&_&_&_&_&_&_&->&_). Qed.

(** After a mount the two events were dispatched, in this order, and the
    dirty flag is set. *)
Lemma after_mount_events (s : Viewer V) :
  events (after_mount s) = events s ++ [urdf_processed; geometry_loaded]
  ∧ _dirty (after_mount s) = true.
Proof.
  unfold after_mount. split.
  - rewrite events_recenter. unfold dispatchEvent. simpl.
    assert (events (_updateCollisionVisibility
                      (_setIgnoreLimits (ignoreLimits_attr s) false s))
            = events s) as ->.
    { unfold _updateCollisionVisibility.
      assert (events (_setIgnoreLimits (ignoreLimits_attr s) false s) = events s)
        as E.
      { unfold _setIgnoreLimits. destruct (the_robot s); [|done].
        by rewrite events_recenter, events_update_robot. }
      destruct (the_robot _); by rewrite ?events_update_robot. }
    by rewrite <- app_assoc.
  - by destruct (recenter_frame
                   (dispatchEvent geometry_loaded
                      (dispatchEvent urdf_processed
                         (_updateCollisionVisibility
                            (_setIgnoreLimits (ignoreLimits_attr s) false s)))))
      as (_ & _ & -> & _).
Qed.

(** X7. Handed a model that holds a mesh, the callback of [loader.load]
    throws before it mounts anything: the mounted model, the world's
    children, the events and the dirty flag are as before, and no
    [urdf-processed] is dispatched. *)
Theorem load_callback_with_mesh (k : nat) (model : URDFRobot V) (s : Viewer V) :
  has_mesh (scene model) = true →
  (load_callback k model s).2 = Threw
  ∧ robot (load_callback k model s).1 = robot s
  ∧ world (load_callback k model s).1 = world s
  ∧ events (load_callback k model s).1 = events s
  ∧ _dirty (load_callback k model s).1 = _dirty s.
Proof.
  intros Hm. unfold load_callback, updateMaterials_of. cbv zeta.
  cbn [heap set_heap]. rewrite lookup_insert_eq. cbn [fst snd].
  destruct (updateMaterials_throws_aux (scene model)) as (-> & _).
  by rewrite Hm.
Qed.

(** X8. [manager.onLoad] of the current request, with its model at hand,
    always makes the model [this.robot] and a child of the world. For a
    model that holds a mesh it then throws in [updateMaterials]: no event
    is dispatched and the dirty flag is not touched. Only for a model
    without a mesh does it go on to dispatch [urdf-processed] and
    [geometry-loaded] and to recenter. *)
Theorem manager_onLoad_current (k : nat) (r : URDFRobot V) (s : Viewer V) :
  _requestId s = k →
  heap s !! k = Some r →
  robot (manager_onLoad k s).1 = Some k
  ∧ k ∈ world (manager_onLoad k s).1
  ∧ (has_mesh (scene r) = true →
     (manager_onLoad k s).2 = Threw
     ∧ events (manager_onLoad k s).1 = events s
     ∧ _dirty (manager_onLoad k s).1 = _dirty s)
  ∧ (has_mesh (scene r) = false →
     (manager_onLoad k s).2 = Returned
     ∧ events (manager_onLoad k s).1
       = events s ++ [urdf_processed; geometry_loaded]
     ∧ _dirty (manager_onLoad k s).1 = true).
Proof.
  intros Hk Hr. unfold manager_onLoad, updateMaterials_of.
  rewrite Hk, Nat.eqb_refl, Hr. cbv zeta.
  cbn [negb heap world_add set_world set_robot]. rewrite Hr. cbn [fst snd].
  destruct (updateMaterials_throws_aux (scene r)) as (-> & _).
  assert (k ∈ List.filter (λ k' : nat, negb (k' =? k)) (world s) ++ [k]) as Hin.
  { apply elem_of_app. right. by apply list_elem_of_singleton. }
  destruct (has_mesh (scene r)); cbn [fst snd].
  - repeat split; done.
  - match goal with |- context [after_mount ?t] =>
      destruct (after_mount_mounted t) as [Hro Hwo];
      destruct (after_mount_events t) as [He Hd]
    end.
    rewrite Hro, Hwo, He, Hd. repeat split; done.
Qed.

End MountingFacts.

Lemma load_callback_with_mesh_witness :
  (load_callback 1 Sample.arm_robot Sample.idle).2 = Threw
  ∧ robot (load_callback 1 Sample.arm_robot Sample.idle).1 = robot Sample.idle
  ∧ world (load_callback 1 Sample.arm_robot Sample.idle).1 = world Sample.idle
  ∧ events (load_callback 1 Sample.arm_robot Sample.idle).1
    = events Sample.idle
  ∧ _dirty (load_callback 1 Sample.arm_robot Sample.idle).1
    = _dirty Sample.idle.
Proof.
  apply (load_callback_with_mesh 1 Sample.arm_robot Sample.idle). reflexivity.
Defined.

Lemma manager_onLoad_current_witness :
  robot (manager_onLoad 1 Sample.with_arm).1 = Some 1
  ∧ 1 ∈ world (manager_onLoad 1 Sample.with_arm).1.
Proof.
  destruct (manager_onLoad_current 1
              (set_scene (updateMaterials (scene Sample.arm_robot)).1
                 Sample.arm_robot)
              Sample.with_arm) as (H1 & H2 & _).
  - reflexivity.
  - by vm_compute.
  - split; [exact H1 | exact H2].
Defined.

(** ** What every schedule keeps *)

Section ScheduleInvariants.

Context {V : Type} `{!Collaborators V}.

Lemma run_app (es1 es2 : list (Happening V)) (s : Viewer V) :
  run (es1 ++ es2) s = run es2 (run es1 s).
Proof. unfold run. apply fold_left_app. Qed.

(** A property every happening keeps is kept by every schedule. *)
Lemma run_invariant (P : Viewer V → Prop) :
  (∀ s e, P s → P (happen s e)) →
  ∀ es s, P s → P (run es s).
Proof.
  intros step es. unfold run.
  induction es as [|e es IH]; intros s Hs; [done|]. simpl. auto.
Qed.

Lemma callbacks_invariant (P : Viewer V → Prop) :
  (∀ s cb, P s → P (run_callback s cb)) →
  (∀ s, P s → P (set_animationFrames [] s)) →
  ∀ s, P s → P (animationFrame s).
Proof.
  intros step clear s Hs. unfold animationFrame.
  generalize (clear s Hs). generalize (set_animationFrames [] s).
  induction (animationFrames s) as [|cb cbs IH]; intros s0 H0; [done|].
  simpl. auto.
Qed.

Lemma same_outside_load_callback (k : nat) (model : URDFRobot V) (s : Viewer V) :
  same_outside s (load_callback k model s).1.
Proof.
  unfold load_callback, updateMaterials_of. cbv zeta.
  cbn [heap set_heap]. rewrite lookup_insert_eq. cbn [fst snd].
  destruct (updateMaterials (scene model)).2; cbn [fst snd].
  - by repeat split.
  - eapply same_outside_trans; [|apply same_outside_after_mount].
    by repeat split.
Qed.

Lemma same_outside_manager_onLoad (k : nat) (s : Viewer V) :
  same_outside s (manager_onLoad k s).1.
Proof.
  unfold manager_onLoad, updateMaterials_of.
  destruct (negb (_requestId s =? k)).
  - destruct (heap s !! k); by repeat split.
  - destruct (heap s !! k) as [r|] eqn:Hr; [|by repeat split]. cbv zeta.
    cbn [heap world_add set_world set_robot]. rewrite Hr. cbn [fst snd].
    destruct (updateMaterials (scene r)).2; cbn [fst snd].
    + by repeat split.
    + eapply same_outside_trans; [|apply same_outside_after_mount].
      by repeat split.
Qed.

(** [_scheduleLoad] starts no import and draws nothing. *)
Lemma _scheduleLoad_frame (s : Viewer V) :
  _requestId (_scheduleLoad s) = _requestId s
  ∧ imports (_scheduleLoad s) = imports s
  ∧ renders (_scheduleLoad s) = renders s
  ∧ updates (controls (_scheduleLoad s)) = updates (controls s)
  ∧ (animationFrames (_scheduleLoad s) = animationFrames s
     ∨ animationFrames (_scheduleLoad s) = animationFrames s ++ [FrameLoad]).
Proof.
  unfold _scheduleLoad. destruct (decide _); [by repeat split; try left|].
  cbn [_loadScheduled set__prevload].
  destruct (_loadScheduled s); [by repeat split; try left|].
  unfold requestAnimationFrame, detach_robot.
  set (s1 := set__loadScheduled true (set__prevload (Some (load_key s)) s)).
  change (robot s1) with (robot s).
  destruct (same_outside_update_robot dispose_all s1)
    as (_ & Hq & _ & _ & _ & _ & Hf & Hi & Hr & Hu).
  destruct (robot s); simpl; rewrite ?Hq, ?Hf, ?Hi, ?Hr, ?Hu;
    repeat split; by right.
Qed.

Lemma _loadUrdf_frame (pkg locator : string) (s : Viewer V) :
  robot (_loadUrdf pkg locator s) = robot s
  ∧ heap (_loadUrdf pkg locator s) = heap s
  ∧ world (_loadUrdf pkg locator s) = world s
  ∧ animationFrames (_loadUrdf pkg locator s) = animationFrames s
  ∧ renders (_loadUrdf pkg locator s) = renders s
  ∧ controls (_loadUrdf pkg locator s) = controls s.
Proof.
  unfold _loadUrdf. destruct (JsString.truthy locator); [|done].
  by destruct (parsePackages pkg).
Qed.

(** The mount writes through [this.robot] only: what [heap] holds at a key
    stays there or is replaced, never dropped. *)
Lemma after_mount_heap (s : Viewer V) (k : nat) :
  is_Some (heap (after_mount s) !! k) ↔ is_Some (heap s !! k).
Proof.
  assert (∀ (f : Object3D V → Object3D V) (t : Viewer V),
             is_Some (heap (update_robot f t) !! k) ↔ is_Some (heap t !! k))
    as Hu.
  { intros f t. unfold update_robot. destruct (robot t); [|done].
    simpl. apply lookup_alter_is_Some. }
  unfold after_mount.
  destruct (recenter_frame
              (dispatchEvent geometry_loaded
                 (dispatchEvent urdf_processed
                    (_updateCollisionVisibility
                       (_setIgnoreLimits (ignoreLimits_attr s) false s)))))
    as (_ & _ & _ & _ & _ & _ & -> & _).
  cbn [heap dispatchEvent set_events].
  unfold _updateCollisionVisibility.
  assert (is_Some (heap (_setIgnoreLimits (ignoreLimits_attr s) false s) !! k)
          ↔ is_Some (heap s !! k)) as H1.
  { unfold _setIgnoreLimits. destruct (the_robot s); [|done].
    destruct (recenter_frame
                (update_robot
                   (traverse (ignoreLimits_callback (ignoreLimits_attr s))) s))
      as (_ & _ & _ & _ & _ & _ & -> & _).
    apply Hu. }
  destruct (the_robot _); [rewrite Hu|]; exact H1.
Qed.

(** *** Request ids *)

Lemma request_ids_run_callback (s : Viewer V) (cb : FrameCallback) :
  request_ids_ok s →
  request_ids_ok (run_callback s cb)
  ∧ _requestId s ≤ _requestId (run_callback s cb).
Proof.
  intros [Hb Hn]. destruct cb.
  - change (run_callback s FrameRenderLoop) with (renderLoop s).
    destruct (same_load_renderLoop s) as (_ & Hq & _ & _ & _ & _ & _ & Hi).
    unfold request_ids_ok. rewrite Hq, Hi. done.
  - destruct (run_FrameLoad s) as (_ & Hi & Hq & _).
    unfold request_ids_ok. rewrite Hi, Hq. unfold started_imports.
    destruct (JsString.truthy (urdf s)).
    + destruct (parsePackages (package s)).
      * split; [|lia]. split.
        -- apply Forall_app. split.
           ++ eapply Forall_impl; [exact Hb|]. simpl. lia.
           ++ constructor; [simpl; lia | constructor].
        -- rewrite fmap_app. apply NoDup_app. split; [exact Hn|]. split.
           ++ intros x Hx Hx'. apply list_elem_of_singleton in Hx'. subst x.
              apply list_elem_of_fmap in Hx as (i & Ei & Hin).
              rewrite Forall_forall in Hb. specialize (Hb i Hin). simpl in Ei. lia.
           ++ apply NoDup_singleton.
      * rewrite app_nil_r. split; [|lia]. split; [|exact Hn].
        eapply Forall_impl; [exact Hb|]. simpl. lia.
    + rewrite app_nil_r. done.
Qed.

Lemma request_ids_happen (s : Viewer V) (e : Happening V) :
  request_ids_ok s →
  request_ids_ok (happen s e) ∧ _requestId s ≤ _requestId (happen s e).
Proof.
  intros Hs. destruct e as [pkg locator| |k model|k]; simpl.
  - unfold scheduleLoad.
    destruct (_scheduleLoad_frame
                (set_host (set_locators pkg locator (host s)) s))
      as (Hq & Hi & _).
    unfold request_ids_ok. rewrite Hq, Hi. done.
  - apply (callbacks_invariant
             (λ t, request_ids_ok t ∧ _requestId s ≤ _requestId t)).
    + intros t cb [Ht Hle].
      destruct (request_ids_run_callback t cb Ht) as [Ht' Hle'].
      split; [exact Ht' | lia].
    + by intros t Ht.
    + done.
  - destruct (same_outside_load_callback k model s) as (_ & Hq & _ & _ & _ & _ & _ & Hi & _).
    unfold request_ids_ok. rewrite Hq, Hi. done.
  - destruct (same_outside_manager_onLoad k s) as (_ & Hq & _ & _ & _ & _ & _ & Hi & _).
    unfold request_ids_ok. rewrite Hq, Hi. done.
Qed.

(** X9. Whatever happens to a freshly constructed element, the imports it
    started carry pairwise different request ids, each at least 1 and at
    most the counter, and the counter never goes down. *)
Theorem request_ids_unique (h : Host) (es es' : list (Happening V)) :
  NoDup (import_id <$> imports (run es (constructed h)))
  ∧ Forall (λ i, 1 ≤ import_id i ≤ _requestId (run es (constructed h)))
      (imports (run es (constructed h)))
  ∧ _requestId (run es (constructed h))
    ≤ _requestId (run (es ++ es') (constructed h)).
Proof.
  assert (∀ (fs : list (Happening V)) (s : Viewer V),
             request_ids_ok s →
             request_ids_ok (run fs s) ∧ _requestId s ≤ _requestId (run fs s))
    as Hrun.
  { intros fs. unfold run.
    induction fs as [|e fs IH]; intros s Hs; [done|]. simpl.
    destruct (request_ids_happen s e Hs) as [H1 H2].
    destruct (IH _ H1) as [H3 H4]. split; [exact H3 | lia]. }
  assert (request_ids_ok (constructed h)) as H0.
  { unfold constructed.
    destruct (same_load_renderLoop (fresh h)) as (_ & Hq & _ & _ & _ & _ & _ & Hi).
    unfold request_ids_ok. rewrite Hq, Hi. simpl. split; constructor. }
  destruct (Hrun es _ H0) as [[Hb Hn] _].
  split; [exact Hn|]. split; [exact Hb|].
  rewrite run_app. by apply Hrun.
Qed.

(** *** The mounted model *)

Lemma robot_mounted_happen (s : Viewer V) (e : Happening V) :
  robot_mounted s → robot_mounted (happen s e).
Proof.
  intros Hs. destruct e as [pkg locator| |k model|k]; simpl.
  - unfold scheduleLoad, _scheduleLoad.
    set (s0 := set_host (set_locators pkg locator (host s)) s).
    destruct (decide _); [exact Hs|].
    cbn [_loadScheduled set__prevload].
    destruct (_loadScheduled s0); [exact Hs|].
    unfold requestAnimationFrame, detach_robot.
    change (robot (set__loadScheduled true
                     (set__prevload (Some (load_key s0)) s0)))
      with (robot s).
    destruct (robot s) as [j|] eqn:Er; intros k Hk; simpl in Hk;
      [discriminate|].
    unfold update_robot in Hk. simpl in Hk. rewrite Er in Hk. discriminate.
  - apply (callbacks_invariant robot_mounted); [|by intros t Ht|exact Hs].
    intros t [] Ht k.
    + change (run_callback t FrameRenderLoop) with (renderLoop t).
      destruct (same_load_renderLoop t) as (_ & _ & _ & _ & -> & -> & -> & _).
      apply Ht.
    + unfold run_callback. simpl.
      destruct (_loadUrdf_frame (package t) (urdf t) t) as (-> & -> & -> & _).
      apply Ht.
  - unfold load_callback, updateMaterials_of. cbv zeta.
    cbn [heap set_heap]. rewrite lookup_insert_eq. cbn [fst snd].
    destruct (updateMaterials (scene model)).2; cbn [fst snd].
    + intros j Hj. simpl in *. destruct (Hs j Hj) as [Hw Hh]. split; [exact Hw|].
      rewrite !lookup_insert. repeat case_decide; done.
    + intros j.
      match goal with |- context [after_mount ?t] =>
        destruct (after_mount_mounted t) as [-> ->];
        rewrite after_mount_heap
      end.
      simpl. intros [= <-]. split.
      * apply elem_of_app. right. by apply list_elem_of_singleton.
      * rewrite !lookup_insert. repeat case_decide; done.
  - unfold manager_onLoad, updateMaterials_of.
    destruct (negb (_requestId s =? k)).
    + destruct (heap s !! k) as [r|] eqn:Hr; [|exact Hs].
      intros j Hj. simpl in *. destruct (Hs j Hj) as [Hw Hh]. split; [exact Hw|].
      rewrite lookup_insert. case_decide; done.
    + destruct (heap s !! k) as [r|] eqn:Hr; [|by intros j Hj]. cbv zeta.
      cbn [heap world_add set_world set_robot]. rewrite Hr. cbn [fst snd].
      destruct (updateMaterials (scene r)).2; cbn [fst snd].
      * intros j. simpl. intros [= <-]. split.
        -- apply elem_of_app. right. by apply list_elem_of_singleton.
        -- by rewrite lookup_insert_eq.
      * intros j.
        match goal with |- context [after_mount ?t] =>
          destruct (after_mount_mounted t) as [-> ->];
          rewrite after_mount_heap
        end.
        simpl. intros [= <-]. split.
        -- apply elem_of_app. right. by apply list_elem_of_singleton.
        -- by rewrite lookup_insert_eq.
Qed.

(** X10. Whatever happens to a freshly constructed element, the model
    [this.robot] refers to is a child of the world, so that
    [this.robot.parent] in [_scheduleLoad] is never [null], and it is one
    of the models the importer delivered. *)
Theorem robot_always_mounted (h : Host) (es : list (Happening V)) (k : nat) :
  robot (run es (constructed h)) = Some k →
  k ∈ world (run es (constructed h))
  ∧ is_Some (heap (run es (constructed h)) !! k).
Proof.
  revert k. change (robot_mounted (run es (constructed h))).
  apply run_invariant; [apply robot_mounted_happen|].
  intros k. unfold constructed.
  destruct (same_load_renderLoop (fresh h)) as (_ & _ & _ & _ & -> & _).
  discriminate.
Qed.

End ScheduleInvariants.

Lemma robot_always_mounted_witness :
  1 ∈ world (run Sample.superseded (constructed Sample.host0))
  ∧ is_Some (heap (run Sample.superseded (constructed Sample.host0)) !! 1).
Proof.
  apply (robot_always_mounted Sample.host0 Sample.superseded 1). reflexivity.
Defined.

(** ** The render loop over time *)

Section RenderLoopOverTime.

Context {V : Type} `{!Collaborators V}.

Lemma pending_renderLoops_renderLoop (s : Viewer V) :
  pending_renderLoops (renderLoop s) = S (pending_renderLoops s).
Proof.
  unfold pending_renderLoops, renderLoop, requestAnimationFrame. simpl.
  rewrite List.filter_app, length_app. simpl.
  destruct (parentNode (host s)); rewrite ?animationFrames_tick; lia.
Qed.

Lemma run_FrameLoad_loop (s : Viewer V) :
  pending_renderLoops (run_callback s FrameLoad) = pending_renderLoops s
  ∧ renders (run_callback s FrameLoad) = renders s
  ∧ updates (controls (run_callback s FrameLoad)) = updates (controls s).
Proof.
  unfold run_callback, pending_renderLoops. simpl.
  destruct (_loadUrdf_frame (package s) (urdf s) s)
    as (_ & _ & _ & -> & -> & ->).
  done.
Qed.

(** Every pending request of the render loop makes one new request when
    its frame comes, and a deferred load makes none. *)
Lemma callbacks_renderLoops (cbs : list FrameCallback) (s : Viewer V) :
  pending_renderLoops (fold_left run_callback cbs s)
  = pending_renderLoops s + count_renderLoops cbs
  ∧ (count_renderLoops cbs = 0 →
     renders (fold_left run_callback cbs s) = renders s
     ∧ updates (controls (fold_left run_callback cbs s)) = updates (controls s)).
Proof.
  revert s. unfold count_renderLoops.
  induction cbs as [|cb cbs IH]; intros s; [simpl; split; [lia|done]|].
  destruct cb.
  - change (fold_left run_callback (FrameRenderLoop :: cbs) s)
      with (fold_left run_callback cbs (renderLoop s)).
    destruct (IH (renderLoop s)) as [-> _].
    rewrite pending_renderLoops_renderLoop.
    change (length (List.filter is_FrameRenderLoop (FrameRenderLoop :: cbs)))
      with (S (length (List.filter is_FrameRenderLoop cbs))).
    split; [lia|discriminate].
  - change (fold_left run_callback (FrameLoad :: cbs) s)
      with (fold_left run_callback cbs (run_callback s FrameLoad)).
    destruct (IH (run_callback s FrameLoad)) as [-> Hq].
    destruct (run_FrameLoad_loop s) as (-> & Hr & Hu).
    change (length (List.filter is_FrameRenderLoop (FrameLoad :: cbs)))
      with (length (List.filter is_FrameRenderLoop cbs)).
    split; [done|]. intros E. destruct (Hq E) as [-> ->]. by rewrite Hr, Hu.
Qed.

Lemma pending_renderLoops_happen (s : Viewer V) (e : Happening V) :
  pending_renderLoops (happen s e) = pending_renderLoops s
  ∧ (pending_renderLoops s = 0 →
     renders (happen s e) = renders s
     ∧ updates (controls (happen s e)) = updates (controls s)).
Proof.
  destruct e as [pkg locator| |k model|k]; simpl.
  - unfold scheduleLoad.
    destruct (_scheduleLoad_frame
                (set_host (set_locators pkg locator (host s)) s))
      as (_ & _ & Hr & Hu & Hf).
    rewrite Hr, Hu. split; [|done]. unfold pending_renderLoops.
    destruct Hf as [-> | ->]; [done|].
    rewrite List.filter_app, length_app. simpl. lia.
  - unfold animationFrame.
    destruct (callbacks_renderLoops (animationFrames s)
                (set_animationFrames [] s)) as [-> Hq].
    unfold count_renderLoops in *.
    split; [done|]. intros E. by apply Hq.
  - destruct (same_outside_load_callback k model s)
      as (_ & _ & _ & _ & _ & _ & Hf & _ & Hr & Hu).
    unfold pending_renderLoops. by rewrite Hf, Hr, Hu.
  - destruct (same_outside_manager_onLoad k s)
      as (_ & _ & _ & _ & _ & _ & Hf & _ & Hr & Hu).
    unfold pending_renderLoops. by rewrite Hf, Hr, Hu.
Qed.

Lemma pending_renderLoops_run (es : list (Happening V)) (s : Viewer V) :
  pending_renderLoops (run es s) = pending_renderLoops s
  ∧ (pending_renderLoops s = 0 →
     renders (run es s) = renders s
     ∧ updates (controls (run es s)) = updates (controls s)).
Proof.
  revert s. unfold run.
  induction es as [|e es IH]; intros s; [done|]. simpl.
  destruct (pending_renderLoops_happen s e) as [He Hq].
  destruct (IH (happen s e)) as [-> Hq']. split; [exact He|].
  intros E. destruct (Hq E) as [<- <-]. apply Hq'. by rewrite He.
Qed.

Lemma count_cancel_renderLoop (cbs : list FrameCallback) :
  length (List.filter is_FrameRenderLoop (cancel_renderLoop cbs))
  = pred (length (List.filter is_FrameRenderLoop cbs)).
Proof.
  induction cbs as [|cb cbs IH]; [done|]. simpl.
  destruct (existsb is_FrameRenderLoop cbs) eqn:Ex.
  - rewrite andb_false_r. simpl.
    destruct cb; simpl; rewrite IH; [|done].
    apply existsb_exists in Ex as (x & Hin & Hx).
    assert (In x (List.filter is_FrameRenderLoop cbs)) as Hf
      by (by apply filter_In).
    destruct (List.filter is_FrameRenderLoop cbs); [done | simpl; lia].
  - rewrite andb_true_r.
    assert (List.filter is_FrameRenderLoop cbs = []) as Hnil.
    { destruct (List.filter is_FrameRenderLoop cbs) as [|x xs] eqn:Ef; [done|].
      assert (In x (x :: xs)) as Hin by (by left).
      rewrite <- Ef in Hin. apply filter_In in Hin as [Hin Hx].
      assert (existsb is_FrameRenderLoop cbs = true) as Ht
        by (apply existsb_exists; by exists x).
      congruence. }
    destruct cb; simpl; rewrite ?Hnil; [done|].
    by rewrite IH, Hnil.
Qed.

Lemma render_loop_single_aux (h : Host) (es : list (Happening V)) :
  pending_renderLoops (run es (constructed h)) = 1.
Proof.
  destruct (pending_renderLoops_run es (constructed h)) as [-> _].
  unfold constructed. by rewrite pending_renderLoops_renderLoop.
Qed.

(** X11. Whatever happens to a freshly constructed element, exactly one
    request of the render loop waits for the next frame: the loop neither
    dies nor multiplies. *)
Theorem render_loop_single (h : Host) (es : list (Happening V)) :
  pending_renderLoops (run es (constructed h)) = 1.
Proof. apply render_loop_single_aux. Qed.

(** X12. Once [disconnectedCallback] has cancelled the pending request,
    the loop is stopped for good: whatever happens afterwards, attached
    again or not, nothing is rendered, the controls are not updated, and
    no request of the loop is made. *)
Theorem render_loop_stopped (h : Host) (es es' : list (Happening V)) :
  pending_renderLoops
    (run es' (disconnectedCallback (run es (constructed h)))) = 0
  ∧ renders (run es' (disconnectedCallback (run es (constructed h))))
    = renders (run es (constructed h))
  ∧ updates (controls (run es' (disconnectedCallback (run es (constructed h)))))
    = updates (controls (run es (constructed h))).
Proof.
  set (s := run es (constructed h)).
  assert (pending_renderLoops (disconnectedCallback s) = 0) as H0.
  { unfold pending_renderLoops, disconnectedCallback. simpl.
    rewrite count_cancel_renderLoop.
    change (pred (pending_renderLoops s) = 0).
    unfold s. by rewrite render_loop_single_aux. }
  destruct (pending_renderLoops_run es' (disconnectedCallback s)) as [-> Hq].
  split; [exact H0|]. by apply Hq.
Qed.

End RenderLoopOverTime.

(** ** The load key *)

Section LoadKey.

Context {V : Type} `{!Collaborators V}.



End LoadKey.


(** ** Framing *)

Section FramingFacts.

Context {V : Type} `{!Collaborators V}.

(** X14. [recenter] moves the controls' target along [y] only, with or
    without a model. With a model mounted and [display-shadow] absent it
    switches the light's shadow off and leaves the light where it is,
    target and frustum included. *)
Theorem recenter_keeps_horizontal (s : Viewer V) :
  THREE.x (target (controls (recenter s))) = THREE.x (target (controls s))
  ∧ THREE.z (target (controls (recenter s))) = THREE.z (target (controls s))
  ∧ (∀ r, the_robot s = Some r → displayShadow s = false →
       directionalLight (recenter s)
       = set_light_castShadow false (directionalLight s)).
Proof.
  unfold recenter, redraw, _updateEnvironment.
  destruct (the_robot s) as [r|]; [|by repeat split].
  unfold displayShadow. simpl.
  destruct (has_display_shadow (host s)); simpl; repeat split; done.
Qed.

(** With a model mounted and [display-shadow] present, [recenter]
    switches the light's shadow on, aims the light at the centre of the
    box of the visual nodes, and makes the frustum of the shadow camera
    the square of half-width the radius of the box's bounding sphere. *)
Theorem recenter_fits_shadow (s : Viewer V) (r : URDFRobot V) :
  the_robot s = Some r →
  displayShadow s = true →
  light_castShadow (directionalLight (recenter s)) = true
  ∧ target_position (directionalLight (recenter s))
    = THREE.getCenter (visual_bbox (scene r))
  ∧ shadow_right (directionalLight (recenter s))
    = THREE.radius (THREE.getBoundingSphere (visual_bbox (scene r)))
  ∧ shadow_top (directionalLight (recenter s))
    = shadow_right (directionalLight (recenter s))
  ∧ shadow_left (directionalLight (recenter s))
    = (- shadow_right (directionalLight (recenter s)))%float
  ∧ shadow_bottom (directionalLight (recenter s))
    = (- shadow_top (directionalLight (recenter s)))%float.
Proof.
  intros Hr Hd. unfold recenter, redraw, _updateEnvironment. rewrite Hr.
  unfold displayShadow in *. simpl. by rewrite Hd.
Qed.

Lemma recenter_plane_and_target_general (s : Viewer V) (r : URDFRobot V) :
  the_robot s = Some r →
  plane_position_y (recenter s)
  = (THREE.y (THREE.min (visual_bbox (scene r))) - epsilon)%float
  ∧ THREE.y (target (controls (recenter s)))
    = THREE.y (THREE.getCenter (visual_bbox (scene r))).
Proof.
  intros Hr. unfold recenter, redraw, _updateEnvironment. rewrite Hr.
  unfold displayShadow. simpl. by destruct (has_display_shadow (host s)).
Qed.

Lemma expandByObject_without_geometry (o : Object3D V) (bbox : THREE.Box3) :
  has_geometry o = false → expandByObject bbox o = bbox.
Proof.
  revert bbox. induction o as [c cs IH] using Object3D_children_ind.
  intros bbox. simpl. destruct (geometry c); [done|]. simpl. intros Hcs.
  induction IH as [|x xs Hx _ IHxs]; [done|]. simpl in *.
  apply orb_false_iff in Hcs as [Hx' Hxs]. rewrite (Hx _ Hx'). by apply IHxs.
Qed.

Lemma expand_visuals_without_geometry (o : Object3D V) (bbox : THREE.Box3) :
  has_geometry o = false → expand_visuals bbox o = bbox.
Proof.
  revert bbox. induction o as [c cs IH] using Object3D_children_ind.
  intros bbox Hg.
  change (expand_visuals bbox (Obj c cs))
    with (fold_left expand_visuals cs
            (if isURDFVisual c then expandByObject bbox (Obj c cs) else bbox)).
  rewrite (expandByObject_without_geometry _ _ Hg).
  assert (existsb has_geometry cs = false) as Hcs.
  { simpl in Hg. by apply orb_false_iff in Hg as [_ ?]. }
  assert (∀ b, fold_left expand_visuals cs b = b) as Hfold.
  { clear Hg. induction IH as [|x xs Hx _ IHxs]; [done|]. intros b. simpl in *.
    apply orb_false_iff in Hcs as [Hx' Hxs]. rewrite (Hx _ Hx'). by apply IHxs. }
  rewrite Hfold. by destruct (isURDFVisual c).
Qed.

(** X15. With a model mounted that has no geometry yet - as the importer
    hands it over while the meshes still load - [recenter] finds an empty
    box: the ground plane goes to plus infinity and the controls' target
    to height 0. *)
Theorem recenter_without_geometry (s : Viewer V) (r : URDFRobot V) :
  the_robot s = Some r →
  has_geometry (scene r) = false →
  plane_position_y (recenter s) = infinity
  ∧ THREE.y (target (controls (recenter s))) = 0%float.
Proof.
  intros Hr Hg.
  destruct (recenter_plane_and_target_general s r Hr) as [-> ->].
  unfold visual_bbox. rewrite (expand_visuals_without_geometry _ _ Hg).
  split; reflexivity.
Qed.

(** X16. A second [updateSize] for the same client box changes nothing:
    it does not recenter and does not touch the dirty flag. *)
Theorem updateSize_idempotent (s : Viewer V) :
  updateSize (updateSize s) = updateSize s.
Proof.
  assert (size_differs (updateSize s) = false) as Hsz.
  { unfold size_differs.
    destruct (updateSize_frame s) as (-> & -> & _). simpl.
    by rewrite !Z.eqb_refl. }
  unfold updateSize at 1. rewrite Hsz.
  destruct (updateSize_frame s) as (-> & _).
  unfold updateSize. by destruct (size_differs s).
Qed.

End FramingFacts.

Lemma recenter_fits_shadow_witness :
  light_castShadow
    (directionalLight
       (recenter (set_host
                    {| attr_package := None; attr_urdf := Some "arm.urdf"%string;
                       has_display_shadow := true; has_ignore_limits := false;
                       has_show_collision := false; autoRedraw := false;
                       noAutoRecenter := false; parentNode := true;
                       clientWidth := 300; clientHeight := 150 |}
                    Sample.with_arm))) = true.
Proof.
  eapply (recenter_fits_shadow _ Sample.arm_robot); by vm_compute.
Defined.

Lemma recenter_without_geometry_witness :
  plane_position_y
    (recenter (run (Sample.load_of "bare.urdf" Sample.bare_robot) Sample.idle))
  = infinity.
Proof.
  assert (the_robot
            (run (Sample.load_of "bare.urdf" Sample.bare_robot) Sample.idle)
          = Some Sample.bare_robot) as Hr by (by vm_compute).
  assert (has_geometry (scene Sample.bare_robot) = false) as Hg
    by (by vm_compute).
  exact (proj1 (recenter_without_geometry _ Sample.bare_robot Hr Hg)).
Defined.

Lemma recenter_keeps_horizontal_witness :
  directionalLight (recenter Sample.with_arm)
  = set_light_castShadow false (directionalLight Sample.with_arm).
Proof.
  destruct (recenter_keeps_horizontal Sample.with_arm) as (_ & _ & H).
  eapply H; by vm_compute.
Defined.

(** ** The render loop at rest *)

Section RenderLoopAtRest.

Context {V : Type} `{!Collaborators V}.



End RenderLoopAtRest.


(** ** The collision update, further *)

Section CollisionFurther.

Context {V : Type} `{!Collaborators V}.

Lemma set_has_show_collision_own (h : Host) :
  set_has_show_collision (has_show_collision h) h = h.
Proof. by destruct h. Qed.

Lemma applyCollisionVisibility_own_flag (s : Viewer V) :
  applyCollisionVisibility (showCollision s) s = _updateCollisionVisibility s.
Proof.
  unfold applyCollisionVisibility, showCollision.
  by rewrite set_has_show_collision_own, set_host_host.
Qed.

(** X18. [_updateCollisionVisibility] writes nothing at an object that is
    neither a collider nor beneath one: links, joints and the visual
    geometry keep their visibility, material, ray-pick and shadow
    flags. *)
Theorem _updateCollisionVisibility_elsewhere (s : Viewer V) (p : Ref) :
  robot_beneath_collider p s = false →
  robot_node p (_updateCollisionVisibility s) = robot_node p s.
Proof.
  intros Hb. rewrite <- applyCollisionVisibility_own_flag.
  rewrite robot_node_applyCollisionVisibility, Hb.
  unfold robot_node, robot_beneath_collider, beneath_collider in *.
  destruct (the_robot s) as [r|]; [|done].
  destruct (deref p (scene r)) as [o|]; [|done]. simpl.
  apply orb_false_iff in Hb as [_ Hc].
  unfold collision_update_at, visibility_callback. by rewrite Hc.
Qed.

Lemma visibility_callback_idem (show : bool) (c : Node V) :
  visibility_callback show (visibility_callback show c)
  = visibility_callback show c.
Proof.
  unfold visibility_callback. destruct (isURDFCollider c) eqn:E; simpl;
    by rewrite E.
Qed.

Lemma visibility_mesh_commute (show : bool) (c : Node V) :
  visibility_callback show (collision_mesh_callback c)
  = collision_mesh_callback (visibility_callback show c).
Proof.
  unfold visibility_callback, collision_mesh_callback.
  destruct c as [vis col mesh j v cs rs m r d g]. simpl.
  by destruct col, mesh.
Qed.

Lemma traverse_collision_pass (show b : bool) (o : Object3D V) :
  traverse (visibility_callback show) (collision_pass b o)
  = collision_pass b (traverse (visibility_callback show) o).
Proof.
  revert b. induction o as [c cs IH] using Object3D_children_ind.
  intros b. simpl. rewrite isURDFCollider_visibility_callback. f_equal.
  - destruct (b || isURDFCollider c); [apply visibility_mesh_commute | done].
  - rewrite <- !list_fmap_compose. apply Forall_fmap_ext_1.
    eapply Forall_impl; [exact IH|]. intros x Hx. apply Hx.
Qed.

Lemma collision_pass_idem (b : bool) (o : Object3D V) :
  collision_pass b (collision_pass b o) = collision_pass b o.
Proof.
  revert b. induction o as [c cs IH] using Object3D_children_ind.
  intros b. simpl.
  assert (isURDFCollider
            (if b || isURDFCollider c then collision_mesh_callback c else c)
          = isURDFCollider c) as ->.
  { destruct (b || isURDFCollider c);
      [apply isURDFCollider_collision_mesh_callback | done]. }
  f_equal.
  - destruct (b || isURDFCollider c); [|done].
    apply collision_mesh_callback_idem.
  - rewrite <- list_fmap_compose. apply Forall_fmap_ext_1.
    eapply Forall_impl; [exact IH|]. intros x Hx. apply Hx.
Qed.

Lemma updateCollisionVisibility_walk_idem (show : bool) (o : Object3D V) :
  updateCollisionVisibility_walk show (updateCollisionVisibility_walk show o)
  = updateCollisionVisibility_walk show o.
Proof.
  rewrite !updateCollisionVisibility_walk_pass.
  rewrite traverse_collision_pass, collision_pass_idem.
  rewrite traverse_compose. f_equal. apply traverse_ext.
  intros c. apply visibility_callback_idem.
Qed.

(** X19. [_updateCollisionVisibility] is idempotent: calling it again
    without a change of the attribute leaves the whole viewer as the
    first call left it. *)
Theorem _updateCollisionVisibility_idempotent (s : Viewer V) :
  _updateCollisionVisibility (_updateCollisionVisibility s)
  = _updateCollisionVisibility s.
Proof.
  unfold _updateCollisionVisibility at 2.
  destruct (the_robot s) as [r|] eqn:Hr.
  - unfold _updateCollisionVisibility.
    rewrite the_robot_update_robot, Hr. simpl.
    unfold the_robot in Hr. unfold update_robot.
    destruct (robot s) as [k|] eqn:Ek; [|done]. simpl. rewrite Ek.
    unfold showCollision. simpl.
    unfold set_heap. simpl. f_equal.
    apply map_eq. intros j. destruct (decide (j = k)) as [->|Hj].
    + rewrite !lookup_alter_eq, Hr. simpl. f_equal.
      unfold set_scene. simpl. f_equal.
      apply updateCollisionVisibility_walk_idem.
    + by rewrite !lookup_alter_ne.
  - unfold _updateCollisionVisibility. by rewrite Hr.
Qed.

(** X20. After any attribute change the colliders of the mounted model
    show what the [show-collision] attribute says: every collider is
    visible exactly when the attribute is present. *)
Theorem attributeChangedCallback_colliders (attr : Attribute) (s : Viewer V)
    (p : Ref) (c : Node V) :
  robot_node p (attributeChangedCallback attr s) = Some c →
  isURDFCollider c = true →
  visible c = showCollision s.
Proof.
  unfold attributeChangedCallback.
  set (s1 := match attr with
             | attr_package_name | attr_urdf_name => _scheduleLoad s
             | attr_ignore_limits => _setIgnoreLimits (ignoreLimits_attr s) true s
             | _ => s
             end).
  assert (host s1 = host s) as Hh.
  { unfold s1. destruct attr; try done; try apply _scheduleLoad_host.
    by destruct (same_outside__setIgnoreLimits (ignoreLimits_attr s) true s). }
  assert (robot_node p (if noAutoRecenter (host (_updateCollisionVisibility s1))
                        then _updateCollisionVisibility s1
                        else recenter (_updateCollisionVisibility s1))
          = robot_node p (_updateCollisionVisibility s1)) as ->.
  { destruct (noAutoRecenter _); [done|].
    unfold robot_node. by rewrite the_robot_recenter. }
  rewrite <- applyCollisionVisibility_own_flag.
  rewrite robot_node_applyCollisionVisibility.
  destruct (robot_node p s1) as [c0|]; [|done]. simpl. intros [= <-].
  rewrite isURDFCollider_collision_update_at. intros Hc.
  rewrite visible_collision_update_at, Hc. unfold showCollision. by rewrite Hh.
Qed.

End CollisionFurther.

Lemma _updateCollisionVisibility_elsewhere_witness :
  robot_node [1; 0] (_updateCollisionVisibility Sample.with_arm)
  = robot_node [1; 0] Sample.with_arm.
Proof.
  apply (_updateCollisionVisibility_elsewhere Sample.with_arm [1; 0]).
  reflexivity.
Defined.

Lemma attributeChangedCallback_colliders_witness :
  visible (set_visible false (Sample.object false true false None None))
  = showCollision Sample.with_arm.
Proof.
  apply (attributeChangedCallback_colliders attr_show_collision
           Sample.with_arm [0]); reflexivity.
Defined.

(** ** Joint values, further *)

Section JointsFurther.

Context {V : Type} `{!Collaborators V}.

(** A call of [setJointValue] that throws leaves the viewer as it was. *)
Lemma setJointValue_Threw (s : Viewer V) (jointName : string)
    (values : list V) :
  (setJointValue jointName values s).2 = Threw →
  (setJointValue jointName values s).1 = s.
Proof.
  unfold setJointValue.
  destruct (the_robot s) as [r|]; [|done].
  destruct (joints_get r jointName) as [p| |]; [|done|done].
  by destruct (joint_at p (scene r)).
Qed.

(** The events and the dirty flag of one [setJointValue]. *)
Lemma setJointValue_log (s : Viewer V) (jointName : string) (values : list V) :
  ∃ changed : bool,
    events (setJointValue jointName values s).1
    = events s ++ (if changed then [angle_change jointName] else [])
    ∧ _dirty (setJointValue jointName values s).1 = _dirty s || changed.
Proof.
  unfold setJointValue.
  destruct (the_robot s) as [r|];
    [|exists false; by rewrite app_nil_r, orb_false_r].
  destruct (joints_get r jointName) as [p| |];
    [|exists false; by rewrite app_nil_r, orb_false_r..].
  destruct (joint_at p (scene r)) as [j|];
    [|exists false; by rewrite app_nil_r, orb_false_r].
  set (res := joint_setJointValue j values).
  destruct (update_robot_frame (at_ref p (write_joint res.1)) s)
    as (_ & _ & _ & _ & _ & _ & _ & _ & He & Hd).
  exists res.2. destruct res.2; simpl.
  - by rewrite He, orb_true_r.
  - by rewrite He, Hd, app_nil_r, orb_false_r.
Qed.

Lemma setJointValues_cons (e : string * V) (values : list (string * V))
    (s : Viewer V) :
  setJointValues (e :: values) s
  = match (setJointValue e.1 [e.2] s).2 with
    | Returned => setJointValues values (setJointValue e.1 [e.2] s).1
    | Threw => setJointValue e.1 [e.2] s
    end.
Proof. reflexivity. Qed.

(** X22. [setJointValues] dispatches [angle-change] events for some of
    the names it was given, in their order and each at most once per
    entry, and nothing else; the dirty flag is set exactly when it was
    set before or at least one event was dispatched. Without a model it
    changes nothing and returns. A call of [setJointValue] that throws
    ends the loop: the entries before it are applied, the entries after
    it are not. *)
Theorem setJointValues_log (values : list (string * V)) (s : Viewer V) :
  (∃ names : list string,
      names `sublist_of` (fst <$> values)
      ∧ events (setJointValues values s).1
        = events s ++ (angle_change <$> names)
      ∧ _dirty (setJointValues values s).1
        = _dirty s || (0 <? length names))
  ∧ (robot s = None → setJointValues values s = (s, Returned))
  ∧ (∀ before e after,
       values = before ++ e :: after →
       (setJointValues before s).2 = Returned →
       (setJointValue e.1 [e.2] (setJointValues before s).1).2 = Threw →
       setJointValues values s = ((setJointValues before s).1, Threw)).
Proof.
  split; [|split].
  - revert s. induction values as [|e values IH]; intros s.
    + exists []. split; [done|]. simpl. by rewrite app_nil_r, orb_false_r.
    + rewrite setJointValues_cons.
      destruct (setJointValue_log s e.1 [e.2]) as (changed & He & Hd).
      destruct (setJointValue e.1 [e.2] s).2 eqn:Ec.
      * destruct (IH (setJointValue e.1 [e.2] s).1) as (names & Hs & He' & Hd').
        rewrite He', Hd', He, Hd, fmap_cons. destruct changed.
        -- exists (e.1 :: names). split; [by apply sublist_skip|].
           rewrite <- app_assoc. simpl. split; [done|].
           by destruct (_dirty s).
        -- exists names. split; [by apply sublist_cons|].
           by rewrite app_nil_r, orb_false_r.
      * exists []. split; [apply sublist_nil_l|].
        rewrite (setJointValue_Threw _ _ _ Ec). simpl.
        by rewrite app_nil_r, orb_false_r.
  - intros Hr. induction values as [|e values IH]; [done|].
    rewrite setJointValues_cons.
    assert (setJointValue e.1 [e.2] s = (s, Returned)) as ->; [|exact IH].
    unfold setJointValue. by rewrite (the_robot_None _ Hr).
  - intros before e after ->. revert s.
    induction before as [|b before IH]; intros s Hb He.
    + simpl in He |- *. rewrite He.
      rewrite <- (setJointValue_Threw _ _ _ He) at 2.
      by destruct (setJointValue e.1 [e.2] s) as [t c]; simpl in *; subst.
    + change ((b :: before) ++ e :: after) with (b :: (before ++ e :: after)).
      rewrite !setJointValues_cons in *. revert Hb He.
      destruct (setJointValue b.1 [b.2] s).2 eqn:Eb; intros Hb He;
        [by apply IH | congruence].
Qed.

End JointsFurther.

Lemma setJointValues_log_witness :
  setJointValues [("elbow"%string, 0.75%float)] Sample.idle
  = (Sample.idle, Returned)
  ∧ setJointValues [("elbow"%string, 0.75%float);
                    ("valueOf"%string, 0.5%float);
                    ("elbow"%string, 0.25%float)] Sample.with_arm
    = ((setJointValues [("elbow"%string, 0.75%float)] Sample.with_arm).1,
       Threw).
Proof.
  split.
  - destruct (setJointValues_log [("elbow"%string, 0.75%float)] Sample.idle)
      as (_ & H & _).
    apply H. reflexivity.
  - destruct (setJointValues_log
                [("elbow"%string, 0.75%float); ("valueOf"%string, 0.5%float);
                 ("elbow"%string, 0.25%float)] Sample.with_arm)
      as (_ & _ & H).
    apply (H [("elbow"%string, 0.75%float)] ("valueOf"%string, 0.5%float)
             [("elbow"%string, 0.25%float)]); reflexivity.
Defined.

(** ** Mounting, further *)

Section MountingFurther.

Context {V : Type} `{!Collaborators V}.

(** X23. Handed a model without a mesh, the callback of [loader.load]
    returns after it made the model [this.robot] and a child of the
    world, dispatched [urdf-processed] and [geometry-loaded] in this
    order, and set the dirty flag - with no regard to the request
    counter. *)
Theorem load_callback_without_mesh (k : nat) (model : URDFRobot V)
    (s : Viewer V) :
  has_mesh (scene model) = false →
  (load_callback k model s).2 = Returned
  ∧ robot (load_callback k model s).1 = Some k
  ∧ k ∈ world (load_callback k model s).1
  ∧ events (load_callback k model s).1
    = events s ++ [urdf_processed; geometry_loaded]
  ∧ _dirty (load_callback k model s).1 = true.
Proof.
  intros Hm. unfold load_callback, updateMaterials_of. cbv zeta.
  cbn [heap set_heap]. rewrite lookup_insert_eq. cbn [fst snd].
  destruct (updateMaterials_throws_aux (scene model)) as (-> & _).
  rewrite Hm. cbn [fst snd].
  match goal with |- context [after_mount ?t] =>
    destruct (after_mount_mounted t) as [-> ->];
    destruct (after_mount_events t) as [-> ->]
  end.
  repeat split; try done.
  unfold world_add. simpl. apply elem_of_app. right.
  by apply list_elem_of_singleton.
Qed.

Lemma NoDup_world_add (k : nat) (s : Viewer V) :
  NoDup (world s) → NoDup (world (world_add k s)).
Proof.
  intros Hn. unfold world_add. simpl. apply NoDup_app. split; [|split].
  - apply NoDup_ListNoDup, List.NoDup_filter, NoDup_ListNoDup, Hn.
  - intros x Hx Hx'. apply list_elem_of_singleton in Hx'. subst x.
    apply list_elem_of_In, filter_In in Hx as [_ Hx].
    by rewrite Nat.eqb_refl in Hx.
  - apply NoDup_singleton.
Qed.

Lemma NoDup_world_happen (s : Viewer V) (e : Happening V) :
  NoDup (world s) → NoDup (world (happen s e)).
Proof.
  intros Hs. destruct e as [pkg locator| |k model|k]; simpl.
  - unfold scheduleLoad, _scheduleLoad.
    set (s0 := set_host (set_locators pkg locator (host s)) s).
    destruct (decide _); [exact Hs|].
    cbn [_loadScheduled set__prevload].
    destruct (_loadScheduled s0); [exact Hs|].
    unfold requestAnimationFrame, detach_robot.
    set (s1 := set__loadScheduled true (set__prevload (Some (load_key s0)) s0)).
    destruct (update_robot_frame dispose_all s1) as (_ & _ & _ & _ & Hw & _).
    destruct (robot s1); simpl; [|exact Hs].
    rewrite Hw.
    apply NoDup_ListNoDup, List.NoDup_filter, NoDup_ListNoDup. exact Hs.
  - apply (callbacks_invariant (λ t, NoDup (world t))); [|by intros t Ht|exact Hs].
    intros t [] Ht.
    + change (run_callback t FrameRenderLoop) with (renderLoop t).
      by destruct (same_load_renderLoop t) as (_ & _ & _ & _ & _ & _ & -> & _).
    + unfold run_callback. simpl.
      by destruct (_loadUrdf_frame (package t) (urdf t) t) as (_ & _ & -> & _).
  - unfold load_callback, updateMaterials_of. cbv zeta.
    cbn [heap set_heap]. rewrite lookup_insert_eq. cbn [fst snd].
    destruct (updateMaterials (scene model)).2; cbn [fst snd]; [exact Hs|].
    match goal with |- context [after_mount ?t] =>
      destruct (after_mount_mounted t) as [_ ->]
    end.
    by apply (NoDup_world_add k).
  - unfold manager_onLoad, updateMaterials_of.
    destruct (negb (_requestId s =? k)).
    + by destruct (heap s !! k).
    + destruct (heap s !! k) as [r|] eqn:Hr; [|exact Hs]. cbv zeta.
      cbn [heap world_add set_world set_robot]. rewrite Hr. cbn [fst snd].
      destruct (updateMaterials (scene r)).2; cbn [fst snd].
      * by apply (NoDup_world_add k).
      * match goal with |- context [after_mount ?t] =>
          destruct (after_mount_mounted t) as [_ ->]
        end.
        by apply (NoDup_world_add k).
Qed.

(** X24. Whatever happens to a freshly constructed element, no model is
    a child of the world twice: mounting a model that is mounted already
    moves it to the end of the children. *)
Theorem world_without_duplicates (h : Host) (es : list (Happening V)) :
  NoDup (world (run es (constructed h))).
Proof.
  apply (run_invariant (λ t, NoDup (world t))); [apply NoDup_world_happen|].
  unfold constructed.
  destruct (same_load_renderLoop (fresh h)) as (_ & _ & _ & _ & _ & _ & -> & _).
  constructor.
Qed.

Lemma events_renderLoop (s : Viewer V) : events (renderLoop s) = events s.
Proof.
  assert (∀ t : Viewer V, events (_updateEnvironment t) = events t) as Henv.
  { intros t. by destruct (_updateEnvironment_frame t)
      as (_&_&_&_&_&_&_&_&_&_&->&_). }
  assert (events (updateSize s) = events s) as Hu.
  { unfold updateSize. destruct (size_differs s); simpl; [|done].
    apply Henv. }
  assert (events (draw (updateSize s)) = events s) as Hd.
  { unfold draw, render. destruct (noAutoRecenter _); simpl;
      by rewrite ?Henv. }
  unfold renderLoop, requestAnimationFrame. simpl.
  destruct (parentNode (host s)); [|done].
  unfold tick, controls_update_call.
  set (s2 := if _dirty (updateSize s) || autoRedraw (host (updateSize s))
             then draw (updateSize s) else updateSize s).
  assert (events s2 = events s) as H2 by (unfold s2; by destruct (_ || _)).
  destruct (controls_update (controls s2)).2; simpl; by rewrite ?Henv.
Qed.

Lemma callbacks_events (cbs : list FrameCallback) (s : Viewer V) :
  events (fold_left run_callback cbs s)
  = events s ++ replicate (length (List.filter is_FrameLoad cbs)) urdf_change.
Proof.
  revert s. induction cbs as [|cb cbs IH]; intros s;
    [by rewrite app_nil_r|].
  destruct cb.
  - change (fold_left run_callback (FrameRenderLoop :: cbs) s)
      with (fold_left run_callback cbs (renderLoop s)).
    by rewrite IH, events_renderLoop.
  - change (fold_left run_callback (FrameLoad :: cbs) s)
      with (fold_left run_callback cbs (run_callback s FrameLoad)).
    rewrite IH. destruct (run_FrameLoad s) as (_ & _ & _ & _ & _ & ->).
    by rewrite <- app_assoc.
Qed.

(** X25. An animation frame dispatches one [urdf-change] event for every
    deferred load that waited for it, and no other event - also when the
    locator is empty and nothing is imported. *)
Theorem animationFrame_events (s : Viewer V) :
  events (animationFrame s)
  = events s ++ replicate (pending_loads s) urdf_change.
Proof. unfold animationFrame, pending_loads. by rewrite callbacks_events. Qed.

End MountingFurther.

Lemma load_callback_without_mesh_witness :
  (load_callback 7 Sample.bare_robot Sample.idle).2 = Returned
  ∧ robot (load_callback 7 Sample.bare_robot Sample.idle).1 = Some 7.
Proof.
  destruct (load_callback_without_mesh 7 Sample.bare_robot Sample.idle)
    as (H1 & H2 & _); [reflexivity|].
  split; [exact H1 | exact H2].
Defined.
